(** * Batch OCR orchestration (src/App.tsx): a shallow embedding.

    The component [App] keeps its run state in React hooks and drives three
    external collaborators: the tesseract.js worker, the pdf.js document
    loader and the DOM canvas.  The embedding keeps the code's control flow
    (awaits, the two nested try blocks, the finally block, the two loops) in
    a small state/exception/trace monad; the collaborators are an arbitrary
    environment [Env] acting on an arbitrary world. *)

From Stdlib Require Import String Ascii List ZArith QArith Bool Arith Lia.
From Stdlib Require Import DecimalString.
Import ListNotations.
Local Close Scope Q_scope.
Local Open Scope list_scope.
Local Open Scope string_scope.

Set Implicit Arguments.

(** ** JavaScript primitives used by the logger callback *)

Module JS.

(** A finite non-negative JS Number, given by the decimal digits that
    Number::toString is specified over: [NPos d ds n] is the number
    0.d ds * 10^n with 1 <= d <= 9 and the digit list as short as possible
    (ECMAScript's s, k = 1 + length ds, and n).  The progress field of a
    logger message is such a number. *)
Inductive Number : Type :=
| NZero
| NPos (d : nat) (ds : list nat) (n : Z).

(** The result of parseInt and of arithmetic on it: NaN or an integer.
    [Int z] is exact below 2^53, which covers every value the logger can
    produce from a fraction. *)
Inductive Num : Type :=
| NaN
| Int (z : Z).

Definition digits_value (s : list nat) : Z :=
  fold_left (fun acc d => 10 * acc + Z.of_nat d)%Z s 0%Z.

(** The mathematical value of a Number: s * 10^(n-k). *)
Definition value (x : Number) : Q :=
  match x with
  | NZero => 0%Q
  | NPos d ds n =>
      (inject_Z (digits_value (d :: ds))
       * Qpower (10 # 1) (n - Z.of_nat (S (length ds))))%Q
  end.

Definition digit_char (d : nat) : ascii := ascii_of_nat (48 + d).

Fixpoint digits_string (s : list nat) : string :=
  match s with
  | [] => ""
  | d :: s' => String (digit_char d) (digits_string s')
  end.

Fixpoint zeros (n : nat) : string :=
  match n with
  | O => ""
  | S n' => String "0" (zeros n')
  end.

Definition nat_string (n : nat) : string :=
  NilEmpty.string_of_uint (Nat.to_uint n).

(** Number::toString(x) in radix 10, steps 5 to 10 of the ECMAScript
    algorithm. *)
Definition Number_toString (x : Number) : string :=
  match x with
  | NZero => "0"
  | NPos d ds n =>
      let s := d :: ds in
      let k := Z.of_nat (length s) in
      if ((k <=? n) && (n <=? 21))%Z then
        digits_string s ++ zeros (Z.to_nat (n - k))
      else if ((0 <? n) && (n <=? 21))%Z then
        digits_string (firstn (Z.to_nat n) s) ++ "."
        ++ digits_string (skipn (Z.to_nat n) s)
      else if ((-6 <? n) && (n <=? 0))%Z then
        "0." ++ zeros (Z.to_nat (- n)) ++ digits_string s
      else
        let e := (n - 1)%Z in
        let sign := if (0 <=? e)%Z then "+" else "-" in
        let mant :=
          match ds with
          | [] => digits_string [d]
          | _ => digits_string [d] ++ "." ++ digits_string ds
          end in
        mant ++ "e" ++ sign ++ nat_string (Z.abs_nat e)
  end.

Definition is_white (c : ascii) : bool :=
  let n := nat_of_ascii c in
  (n =? 9)%nat || (n =? 10)%nat || (n =? 11)%nat || (n =? 12)%nat
  || (n =? 13)%nat || (n =? 32)%nat.

Fixpoint trim_start (s : string) : string :=
  match s with
  | String c s' => if is_white c then trim_start s' else s
  | EmptyString => s
  end.

(** The value of a character as a digit of the given radix (10 or 16). *)
Definition digit_of (radix : Z) (c : ascii) : option Z :=
  let n := Z.of_nat (nat_of_ascii c) in
  let v :=
    if ((48 <=? n) && (n <=? 57))%Z then Some (n - 48)%Z
    else if ((97 <=? n) && (n <=? 102))%Z then Some (n - 87)%Z
    else if ((65 <=? n) && (n <=? 70))%Z then Some (n - 55)%Z
    else None in
  match v with
  | Some z => if (z <? radix)%Z then Some z else None
  | None => None
  end.

(** The longest prefix of radix digits, read as an integer; [None] when
    that prefix is empty. *)
Fixpoint parse_digits (radix : Z) (s : string) (acc : option Z) : option Z :=
  match s with
  | String c s' =>
      match digit_of radix c with
      | Some z =>
          parse_digits radix s'
            (Some (radix * match acc with Some a => a | None => 0 end + z)%Z)
      | None => acc
      end
  | EmptyString => acc
  end.

(** parseInt(string) with the radix argument undefined. *)
Definition parseInt (input : string) : Num :=
  let s := trim_start input in
  let '(sign, s1) :=
    match s with
    | String "-" r => ((-1)%Z, r)
    | String "+" r => (1%Z, r)
    | _ => (1%Z, s)
    end in
  let '(radix, s2) :=
    match s1 with
    | String "0" (String "x" r) => (16%Z, r)
    | String "0" (String "X" r) => (16%Z, r)
    | _ => (10%Z, s1)
    end in
  match parse_digits radix s2 None with
  | None => NaN
  | Some z => Int (sign * z)
  end.

(** [x * 100] on a parseInt result. *)
Definition times100 (x : Num) : Num :=
  match x with
  | NaN => NaN
  | Int z => Int (z * 100)
  end.

End JS.

(** ** Data *)

(** Thrown values and rejection reasons are opaque. *)
Definition exn := string.

Inductive result (A : Type) : Type :=
| Ok (a : A)
| Err (e : exn).
Arguments Ok {A} a.
Arguments Err {A} e.

(** A queued file: [file.name], [file.type] and its bytes. *)
Record File : Type := mkFile {
  name : string;
  type : string;
  bytes : string
}.

(** Handles of the collaborators' objects. *)
Definition Worker := nat.
Definition Page := nat.
Definition Canvas := nat.
Definition Context := nat.

Record Pdf : Type := mkPdf { pdf_id : nat; numPages : nat }.
Record Viewport : Type := mkViewport { height : nat; width : nat }.

(** What [worker.recognize] is given: a file, or a canvas data URL. *)
Inductive Image : Type :=
| ImgFile (f : File)
| ImgDataURL (u : string).

(** A message passed to the [logger] option: [m.status], [m.progress]. *)
Record LogMsg : Type := mkLog {
  status : string;
  progress_of : JS.Number
}.

(** The hooks of [App]: [files], [isProcessing], [results], [progress],
    [error], [selectedLanguage]. *)
Record UI : Type := mkUI {
  files : list File;
  isProcessing : bool;
  results : string;
  progress : JS.Num;
  error : option string;
  selectedLanguage : string
}.

Definition with_isProcessing (b : bool) (u : UI) : UI :=
  mkUI (files u) b (results u) (progress u) (error u) (selectedLanguage u).

Definition with_progress (v : JS.Num) (u : UI) : UI :=
  mkUI (files u) (isProcessing u) (results u) v (error u)
       (selectedLanguage u).

Definition with_results (r : string) (u : UI) : UI :=
  mkUI (files u) (isProcessing u) r (progress u) (error u)
       (selectedLanguage u).

Definition with_error (e : option string) (u : UI) : UI :=
  mkUI (files u) (isProcessing u) (results u) (progress u) e
       (selectedLanguage u).

(** Everything a run does that can be observed from outside: the setters
    of the hooks, console.error, and each call of a collaborator together
    with how the call settles. *)
Inductive Event : Type :=
| EvSetIsProcessing (b : bool)
| EvSetProgress (v : JS.Num)
| EvSetResults (s : string)
| EvSetError (e : option string)
| EvConsoleError (msg : string) (e : exn)
| EvCreateWorker (r : result Worker)
| EvLoadLanguage (wk : Worker) (lang : string) (r : result unit)
| EvInitialize (wk : Worker) (lang : string) (r : result unit)
| EvRecognize (wk : Worker) (img : Image) (r : result string)
| EvTerminate (wk : Worker) (r : result unit)
| EvCreateObjectURL (f : File) (u : string)
| EvRevokeObjectURL (u : string)
| EvGetDocument (u : string) (r : result Pdf)
| EvGetPage (pdf : Pdf) (i : nat) (r : result Page)
| EvGetViewport (pg : Page) (scale : Q) (r : result Viewport)
| EvCreateCanvas (c : Canvas)
| EvGetContext (c : Canvas) (ctx : option Context)
| EvSetCanvasHeight (c : Canvas) (h : nat)
| EvSetCanvasWidth (c : Canvas) (w : nat)
| EvRender (pg : Page) (ctx : option Context) (vp : Viewport) (r : result unit)
| EvToDataURL (c : Canvas) (mime : string) (r : result string).

(** The collaborators.  Every call may change the world and every awaited
    or throwing call may fail; the worker's calls also deliver messages to
    the logger while they run. *)
Record Env (world : Type) : Type := mkEnv {
  ext_createWorker : world -> list LogMsg * result Worker * world;
  ext_loadLanguage :
    Worker -> string -> world -> list LogMsg * result unit * world;
  ext_initialize :
    Worker -> string -> world -> list LogMsg * result unit * world;
  ext_recognize :
    Worker -> Image -> world -> list LogMsg * result string * world;
  ext_terminate : Worker -> world -> list LogMsg * result unit * world;
  ext_createObjectURL : File -> world -> string * world;
  ext_revokeObjectURL : string -> world -> world;
  ext_getDocument : string -> world -> result Pdf * world;
  ext_getPage : Pdf -> nat -> world -> result Page * world;
  ext_getViewport : Page -> Q -> world -> result Viewport * world;
  ext_createCanvas : world -> Canvas * world;
  ext_getContext : Canvas -> world -> option Context * world;
  ext_setCanvasHeight : Canvas -> nat -> world -> world;
  ext_setCanvasWidth : Canvas -> nat -> world -> world;
  ext_render :
    Page -> option Context -> Viewport -> world -> result unit * world;
  ext_toDataURL : Canvas -> string -> world -> result string * world
}.

(** parseInt(m.progress.toString()) * 100 (line 78). *)
Definition shown_progress (p : JS.Number) : JS.Num :=
  JS.times100 (JS.parseInt (JS.Number_toString p)).

(** ** Observations on traces and reports *)

(** The values the logger shows for a list of messages, in order. *)
Definition logged (logs : list LogMsg) : list JS.Num :=
  flat_map
    (fun m =>
       if status m =? "recognizing text"
       then [shown_progress (progress_of m)] else [])
    logs.

Definition progress_after (vs : list JS.Num) (u : UI) : UI :=
  fold_left (fun u v => with_progress v u) vs u.

(** Two states of the hooks that differ at most in [progress]. *)
Definition ui_frame (u u' : UI) : Prop :=
  files u' = files u /\ isProcessing u' = isProcessing u
  /\ results u' = results u /\ error u' = error u
  /\ selectedLanguage u' = selectedLanguage u.

Definition count (p : Event -> bool) (t : list Event) : nat :=
  length (filter p t).

Definition is_createWorker (e : Event) : bool :=
  match e with EvCreateWorker _ => true | _ => false end.

Definition is_loadLanguage (e : Event) : bool :=
  match e with EvLoadLanguage _ _ _ => true | _ => false end.

Definition is_initialize (e : Event) : bool :=
  match e with EvInitialize _ _ _ => true | _ => false end.

Definition is_recognize (e : Event) : bool :=
  match e with EvRecognize _ _ _ => true | _ => false end.

Definition is_terminate (e : Event) : bool :=
  match e with EvTerminate _ _ => true | _ => false end.

Definition is_setResults (e : Event) : bool :=
  match e with EvSetResults _ => true | _ => false end.

(** setError with a message (not the reset setError(null)). *)
Definition is_error_message (e : Event) : bool :=
  match e with EvSetError (Some _) => true | _ => false end.

(** A call that works on a queued file: an object URL, opening or
    rasterizing a document, the canvas, or a recognition. *)
Definition is_file_work (e : Event) : bool :=
  match e with
  | EvRecognize _ _ _ | EvCreateObjectURL _ _ | EvRevokeObjectURL _
  | EvGetDocument _ _ | EvGetPage _ _ _ | EvGetViewport _ _ _
  | EvCreateCanvas _ | EvGetContext _ _ | EvSetCanvasHeight _ _
  | EvSetCanvasWidth _ _ | EvRender _ _ _ _ | EvToDataURL _ _ _ => true
  | _ => false
  end.

(** File work in which every recognition is done by worker [wk]. *)
Definition file_work (wk : Worker) (e : Event) : Prop :=
  is_file_work e = true
  /\ match e with EvRecognize wk' _ _ => wk' = wk | _ => True end.

(** The life cycle of a run: its trace without the updates of [progress]
    and without console.error. *)
Definition is_lifecycle (e : Event) : bool :=
  match e with
  | EvSetProgress _ | EvConsoleError _ _ => false
  | _ => true
  end.

Definition lifecycle (t : list Event) : list Event := filter is_lifecycle t.

(** What the code between two iterations of the file loop may do: file
    work with the given worker, logger updates and console.error. *)
Definition file_level (wk : Worker) (e : Event) : Prop :=
  match e with
  | EvSetProgress _ | EvConsoleError _ _ => True
  | _ => file_work wk e
  end.

(** The hooks after an event, and after a trace. *)
Definition apply_event (u : UI) (e : Event) : UI :=
  match e with
  | EvSetIsProcessing b => with_isProcessing b u
  | EvSetProgress v => with_progress v u
  | EvSetResults r => with_results r u
  | EvSetError e => with_error e u
  | _ => u
  end.

Definition replay (t : list Event) (u : UI) : UI := fold_left apply_event t u.

(** A rasterize or recognize step that failed. *)
Definition step_failed (e : Event) : bool :=
  match e with
  | EvGetPage _ _ (Err _) | EvGetViewport _ _ (Err _)
  | EvRender _ _ _ (Err _) | EvToDataURL _ _ (Err _)
  | EvRecognize _ _ (Err _) => true
  | _ => false
  end.

(** A call of the document loader, the rasterizer or the recognizer that
    failed. *)
Definition call_failed (e : Event) : bool :=
  match e with
  | EvGetDocument _ (Err _) => true
  | _ => step_failed e
  end.

(** The page indices asked of getPage, in order. *)
Definition page_requests (t : list Event) : list nat :=
  flat_map (fun e => match e with EvGetPage _ i _ => [i] | _ => [] end) t.

(** The scales given to getViewport, in order. *)
Definition viewport_scales (t : list Event) : list Q :=
  flat_map
    (fun e => match e with EvGetViewport _ sc _ => [sc] | _ => [] end) t.

(** The pages rendered, in order. *)
Definition rendered_pages (t : list Event) : list Page :=
  flat_map (fun e => match e with EvRender pg _ _ _ => [pg] | _ => [] end) t.

(** The pages getPage delivered, in order. *)
Definition fetched_pages (t : list Event) : list Page :=
  flat_map
    (fun e => match e with EvGetPage _ _ (Ok pg) => [pg] | _ => [] end) t.

(** The texts recognition delivered, in order. *)
Definition recognized_texts (t : list Event) : list string :=
  flat_map
    (fun e => match e with EvRecognize _ _ (Ok x) => [x] | _ => [] end) t.

(** The documents getDocument delivered. *)
Definition opened_documents (t : list Event) : list Pdf :=
  flat_map
    (fun e => match e with EvGetDocument _ (Ok d) => [d] | _ => [] end) t.

Definition nl : string := String (ascii_of_nat 10) "".

(** `Page ${i}:\n${pageText.data.text}\n\n` (line 63). *)
Definition page_block (i : nat) (pageText : string) : string :=
  "Page " ++ JS.nat_string i ++ ":" ++ nl ++ pageText ++ nl ++ nl.

(** `File: ${file.name}\n\n${body}\n\n` (lines 97 and 100). *)
Definition file_block (nm body : string) : string :=
  "File: " ++ nm ++ nl ++ nl ++ body ++ nl ++ nl.

(** The page blocks of the given texts, numbered from [i]. *)
Fixpoint page_blocks (i : nat) (texts : list string) : string :=
  match texts with
  | [] => ""
  | x :: texts' => page_block i x ++ page_blocks (S i) texts'
  end.

(** One file block per file, in the order of the list. *)
Fixpoint report (fs : list File) (bodies : list string) : string :=
  match fs, bodies with
  | f :: fs', b :: bodies' => file_block (name f) b ++ report fs' bodies'
  | _, _ => ""
  end.

(** ** The run monad: state, exceptions and the trace of the run *)

Section Run.

Variable world : Type.
Variable E : Env world.

Record St : Type := mkSt { st_world : world; st_ui : UI }.

(** How a computation ends: a value or a thrown error, the state it
    leaves, and the events it produced, oldest first. *)
Record Out (A : Type) : Type := mkOut {
  res : result A;
  st : St;
  evs : list Event
}.

Definition M (A : Type) : Type := St -> Out A.

Definition ret {A} (a : A) : M A := fun s => mkOut (Ok a) s [].

Definition bind {A B} (m : M A) (k : A -> M B) : M B :=
  fun s =>
    match m s with
    | mkOut (Ok a) s1 t1 =>
        match k a s1 with
        | mkOut r s2 t2 => mkOut r s2 (t1 ++ t2)%list
        end
    | mkOut (Err e) s1 t1 => mkOut (Err e) s1 t1
    end.

(** try { m } catch (e) { h e } *)
Definition try_catch {A} (m : M A) (h : exn -> M A) : M A :=
  fun s =>
    match m s with
    | mkOut (Ok a) s1 t1 => mkOut (Ok a) s1 t1
    | mkOut (Err e) s1 t1 =>
        match h e s1 with
        | mkOut r s2 t2 => mkOut r s2 (t1 ++ t2)%list
        end
    end.

(** try { m } finally { f }: [f] runs however [m] ends; the outcome is
    that of [m] unless [f] itself throws. *)
Definition try_finally {A} (m : M A) (f : M unit) : M A :=
  fun s =>
    match m s with
    | mkOut r s1 t1 =>
        match f s1 with
        | mkOut (Ok _) s2 t2 => mkOut r s2 (t1 ++ t2)%list
        | mkOut (Err e) s2 t2 => mkOut (Err e) s2 (t1 ++ t2)%list
        end
    end.

Notation "x <- m ;; k" := (bind m (fun x => k))
  (at level 61, m at next level, right associativity).
Notation "m ;; k" := (bind m (fun _ => k))
  (at level 61, right associativity).

Definition get_ui : M UI := fun s => mkOut (Ok (st_ui s)) s [].

Definition update_ui (f : UI -> UI) (ev : Event) : M unit :=
  fun s => mkOut (Ok tt) (mkSt (st_world s) (f (st_ui s))) [ev].

Definition setIsProcessing (b : bool) : M unit :=
  update_ui (with_isProcessing b) (EvSetIsProcessing b).

Definition setProgress (v : JS.Num) : M unit :=
  update_ui (with_progress v) (EvSetProgress v).

Definition setResults (r : string) : M unit :=
  update_ui (with_results r) (EvSetResults r).

Definition setError (e : option string) : M unit :=
  update_ui (with_error e) (EvSetError e).

Definition console_error (msg : string) (e : exn) : M unit :=
  fun s => mkOut (Ok tt) s [EvConsoleError msg e].

(** The [logger] option given to createWorker (lines 76-80). *)
Definition logger (m : LogMsg) : M unit :=
  if status m =? "recognizing text" then
    setProgress (shown_progress (progress_of m))
  else ret tt.

Fixpoint deliver (logs : list LogMsg) : M unit :=
  match logs with
  | [] => ret tt
  | m :: logs' => logger m ;; deliver logs'
  end.

(** A call of the worker: the call is recorded with how it settles, and
    the messages it sends while running go through [logger]. *)
Definition worker_call {A} (op : world -> list LogMsg * result A * world)
    (ev : result A -> Event) : M A :=
  fun s =>
    match op (st_world s) with
    | (logs, r, w') =>
        match deliver logs (mkSt w' (st_ui s)) with
        | mkOut _ s1 t1 => mkOut r s1 (ev r :: t1)
        end
    end.

(** A call that may throw or reject. *)
Definition call {A} (op : world -> result A * world)
    (ev : result A -> Event) : M A :=
  fun s =>
    match op (st_world s) with
    | (r, w') => mkOut r (mkSt w' (st_ui s)) [ev r]
    end.

(** A call that returns. *)
Definition call_total {A} (op : world -> A * world) (ev : A -> Event) : M A :=
  fun s =>
    match op (st_world s) with
    | (a, w') => mkOut (Ok a) (mkSt w' (st_ui s)) [ev a]
    end.

Definition call_unit (op : world -> world) (ev : Event) : M unit :=
  fun s => mkOut (Ok tt) (mkSt (op (st_world s)) (st_ui s)) [ev].

Definition createWorker : M Worker :=
  worker_call (ext_createWorker E) EvCreateWorker.
Definition loadLanguage (wk : Worker) (lang : string) : M unit :=
  worker_call (ext_loadLanguage E wk lang) (EvLoadLanguage wk lang).
Definition initialize (wk : Worker) (lang : string) : M unit :=
  worker_call (ext_initialize E wk lang) (EvInitialize wk lang).
Definition recognize (wk : Worker) (img : Image) : M string :=
  worker_call (ext_recognize E wk img) (EvRecognize wk img).
Definition terminate (wk : Worker) : M unit :=
  worker_call (ext_terminate E wk) (EvTerminate wk).

Definition createObjectURL (f : File) : M string :=
  call_total (ext_createObjectURL E f) (EvCreateObjectURL f).
Definition revokeObjectURL (u : string) : M unit :=
  call_unit (ext_revokeObjectURL E u) (EvRevokeObjectURL u).
Definition getDocument (u : string) : M Pdf :=
  call (ext_getDocument E u) (EvGetDocument u).
Definition getPage (pdf : Pdf) (i : nat) : M Page :=
  call (ext_getPage E pdf i) (EvGetPage pdf i).
Definition getViewport (pg : Page) (scale : Q) : M Viewport :=
  call (ext_getViewport E pg scale) (EvGetViewport pg scale).
Definition createCanvas : M Canvas :=
  call_total (ext_createCanvas E) EvCreateCanvas.
Definition getContext (c : Canvas) : M (option Context) :=
  call_total (ext_getContext E c) (EvGetContext c).
Definition setCanvasHeight (c : Canvas) (h : nat) : M unit :=
  call_unit (ext_setCanvasHeight E c h) (EvSetCanvasHeight c h).
Definition setCanvasWidth (c : Canvas) (w : nat) : M unit :=
  call_unit (ext_setCanvasWidth E c w) (EvSetCanvasWidth c w).
Definition render (pg : Page) (ctx : option Context) (vp : Viewport) : M unit :=
  call (ext_render E pg ctx vp) (EvRender pg ctx vp).
Definition toDataURL (c : Canvas) (mime : string) : M string :=
  call (ext_toDataURL E c mime) (EvToDataURL c mime).

(** ** The program *)

(** processImage (lines 45-48). *)
Definition processImage (worker : Worker) (file : File) : M string :=
  text <- recognize worker (ImgFile file) ;;
  ret text.

(** The scale given to getViewport (line 56): 1.5. *)
Definition render_scale : Q := 3 # 2.

(** The loop of processPDF (lines 54-64), entered at page [i] with
    [todo] = numPages + 1 - i pages still to do. *)
Fixpoint pages_loop (worker : Worker) (pdf : Pdf) (todo i : nat)
    (text : string) : M string :=
  match todo with
  | O => ret text
  | S todo' =>
      page <- getPage pdf i ;;
      viewport <- getViewport page render_scale ;;
      canvas <- createCanvas ;;
      context <- getContext canvas ;;
      setCanvasHeight canvas (height viewport) ;;
      setCanvasWidth canvas (width viewport) ;;
      render page context viewport ;;
      url <- toDataURL canvas "image/png" ;;
      pageText <- recognize worker (ImgDataURL url) ;;
      pages_loop worker pdf todo' (S i) (text ++ page_block i pageText)
  end.

(** processPDF (lines 50-67). *)
Definition processPDF (worker : Worker) (file : File) : M string :=
  fileURL <- createObjectURL file ;;
  pdf <- getDocument fileURL ;;
  text <- pages_loop worker pdf (numPages pdf) 1 "" ;;
  revokeObjectURL fileURL ;;
  ret text.

Definition fail_body : string :=
  "Error: Unable to process this file. It may be corrupted or in an unsupported format.".

Definition fatal_message : string :=
  "An error occurred during OCR processing. Please try again with different files.".

(** The if/else of lines 92-96. *)
Definition dispatch (worker : Worker) (file : File) : M string :=
  if type file =? "application/pdf" then processPDF worker file
  else processImage worker file.

(** The loop over [files] (lines 89-102), with its try/catch. *)
Fixpoint files_loop (worker : Worker) (fs : list File)
    (combinedResult : string) : M string :=
  match fs with
  | [] => ret combinedResult
  | file :: fs' =>
      combinedResult' <-
        try_catch
          (text <- dispatch worker file ;;
           ret (combinedResult ++ file_block (name file) text))
          (fun fileError =>
             console_error ("Error processing file " ++ name file ++ ":")
               fileError ;;
             ret (combinedResult ++ file_block (name file) fail_body)) ;;
      files_loop worker fs' combinedResult'
  end.

(** How the processing of each queued file ends, in queue order: the
    files are taken one after the other, each starting in the state the
    previous one left. *)
Fixpoint outcomes (worker : Worker) (fs : list File) (s : St)
    : list (result string) :=
  match fs with
  | [] => []
  | file :: fs' =>
      res (dispatch worker file s)
      :: outcomes worker fs' (st (dispatch worker file s))
  end.

(** The body of a file's block, by how its processing ended. *)
Definition body_of (r : result string) : string :=
  match r with
  | Ok text => text
  | Err _ => fail_body
  end.

(** processFiles (lines 69-113). *)
Definition processFiles : M unit :=
  setIsProcessing true ;;
  setProgress (JS.Int 0) ;;
  setResults "" ;;
  setError None ;;
  worker <- createWorker ;;
  u <- get_ui ;;
  try_finally
    (try_catch
       (loadLanguage worker (selectedLanguage u) ;;
        initialize worker (selectedLanguage u) ;;
        combinedResult <- files_loop worker (files u) "" ;;
        setResults combinedResult)
       (fun error =>
          console_error "OCR Error:" error ;;
          setError (Some fatal_message)))
    (terminate worker ;;
     setIsProcessing false ;;
     setProgress (JS.Int 0)).

(** ** Predicates on computations *)

(** [traced m]: the hooks [m] leaves are those obtained by replaying its
    events. *)
Definition traced {A} (m : M A) : Prop :=
  forall s, st_ui (st (m s)) = replay (evs (m s)) (st_ui s).

(** [tame wk m]: whatever the state, [m] emits only file-level events of
    worker [wk]. *)
Definition tame {A} (wk : Worker) (m : M A) : Prop :=
  forall s, Forall (file_level wk) (evs (m s)).

End Run.

Arguments mkOut {world A} res st evs.
Arguments res {world A} o.
Arguments st {world A} o.
Arguments evs {world A} o.

(** ** The shape of a run

    The life cycle of a run, determined by how createWorker ([r0]),
    loadLanguage ([r1]), initialize ([r2]) and terminate ([rt]) settle, by
    the file work [work] of the loop and by the report [out]. *)

Definition fatal_events : list Event := [EvSetError (Some fatal_message)].

Definition after_load (wk : Worker) (lang : string) (r1 r2 : result unit)
    (work : list Event) (out : string) : list Event :=
  EvLoadLanguage wk lang r1
  :: match r1 with
     | Err _ => fatal_events
     | Ok _ =>
         EvInitialize wk lang r2
         :: match r2 with
            | Err _ => fatal_events
            | Ok _ => work ++ [EvSetResults out]
            end
     end.

Definition closing (wk : Worker) (rt : result unit) : list Event :=
  EvTerminate wk rt
  :: match rt with Ok _ => [EvSetIsProcessing false] | Err _ => [] end.

Definition expected_lifecycle (lang : string) (r0 : result Worker)
    (r1 r2 : result unit) (work : list Event) (out : string)
    (rt : result unit) : list Event :=
  [EvSetIsProcessing true; EvSetResults ""; EvSetError None;
   EvCreateWorker r0]
  ++ match r0 with
     | Err _ => []
     | Ok wk => after_load wk lang r1 r2 work out ++ closing wk rt
     end.

(** The two ways a run can end.  setResults is always called once, to
    clear the previous report (line 72); a second call delivers the report
    of this run (line 104). *)
Definition completed_report {world} (o : Out world unit) : Prop :=
  count is_setResults (evs o) = 2
  /\ count is_error_message (evs o) = 0
  /\ error (st_ui (st o)) = None.

Definition fatal_error {world} (o : Out world unit) : Prop :=
  count is_setResults (evs o) = 1
  /\ count is_error_message (evs o) = 1
  /\ error (st_ui (st o)) = Some fatal_message
  /\ results (st_ui (st o)) = "".

(** What a completed pass of the page loop from page [i] over [todo]
    pages leaves in the trace, [texts] being the recognized texts. *)
Record pages_done (i todo : nat) (t : list Event) (texts : list string)
    : Prop := {
  done_requests : page_requests t = seq i todo;
  done_scales : viewport_scales t = repeat render_scale todo;
  done_rendered : rendered_pages t = fetched_pages t;
  done_fetched : length (fetched_pages t) = todo;
  done_texts : recognized_texts t = texts;
  done_length : length texts = todo;
  done_no_failure : count step_failed t = 0
}.

(** ** The output format, after the specification

    Section 6 of the specification gives the report as repeated blocks
    "File: {name}\n\n{body}\n\n" in queue order, the body of a multi-page
    file as blocks "Page {n}:\n{text}\n\n", the body of a failed file as a
    fixed message, and section 4.2 the scale of rasterization as 1.5.
    The definitions of this module follow that wording; they use nothing
    of the program above, so that the theorems compare the two. *)

Module Spec.

(** The line feed. *)
Definition LF : string := String "010"%char EmptyString.

Definition failure_message : string :=
  "Error: Unable to process this file. It may be corrupted or in an unsupported format.".

(** "File: {name}\n\n{body}\n\n" *)
Definition file_entry (nm body : string) : string :=
  "File: " ++ nm ++ LF ++ LF ++ body ++ LF ++ LF.

(** "Page {n}:\n{text}\n\n", the page number in decimal. *)
Definition page_entry (n : nat) (text : string) : string :=
  "Page " ++ NilEmpty.string_of_uint (Nat.to_uint n) ++ ":" ++ LF
  ++ text ++ LF ++ LF.

(** The body of a file's entry: the extracted text, or the message. *)
Definition body (r : result string) : string :=
  match r with
  | Ok text => text
  | Err _ => failure_message
  end.

(** The entries of a queue, as (name, body), given how the processing of
    each file ended. *)
Definition entries (fs : list File) (rs : list (result string))
    : list (string * string) :=
  combine (map name fs) (map body rs).

(** The report: the entries one after the other, in the order given. *)
Fixpoint report (es : list (string * string)) : string :=
  match es with
  | [] => EmptyString
  | (nm, b) :: es' => file_entry nm b ++ report es'
  end.

(** The page entries of the given texts, numbered from [n]. *)
Fixpoint pages (n : nat) (texts : list string) : string :=
  match texts with
  | [] => EmptyString
  | x :: texts' => page_entry n x ++ pages (S n) texts'
  end.

(** What the rasterizer and the recognizer deliver for one page. *)
Record PageRun : Type := mkPageRun {
  pr_page : Page;
  pr_viewport : Viewport;
  pr_canvas : Canvas;
  pr_context : option Context;
  pr_url : string;
  pr_shown : list JS.Num;
  pr_text : string
}.

(** The steps for page [i] of a document: the page is fetched, its
    viewport taken at scale 1.5, a canvas of the viewport's size made, the
    page rendered into the canvas, the canvas converted to a PNG data URL
    and that image recognized. *)
Definition page_events (wk : Worker) (pdf : Pdf) (i : nat) (r : PageRun)
    : list Event :=
  [EvGetPage pdf i (Ok (pr_page r));
   EvGetViewport (pr_page r) (3 # 2) (Ok (pr_viewport r));
   EvCreateCanvas (pr_canvas r);
   EvGetContext (pr_canvas r) (pr_context r);
   EvSetCanvasHeight (pr_canvas r) (height (pr_viewport r));
   EvSetCanvasWidth (pr_canvas r) (width (pr_viewport r));
   EvRender (pr_page r) (pr_context r) (pr_viewport r) (Ok tt);
   EvToDataURL (pr_canvas r) "image/png" (Ok (pr_url r));
   EvRecognize wk (ImgDataURL (pr_url r)) (Ok (pr_text r))]
  ++ map EvSetProgress (pr_shown r).

(** The steps for the pages [i], [i+1], ... one page after the other. *)
Fixpoint pages_events (wk : Worker) (pdf : Pdf) (i : nat)
    (rs : list PageRun) : list Event :=
  match rs with
  | [] => []
  | r :: rs' => page_events wk pdf i r ++ pages_events wk pdf (S i) rs'
  end.

End Spec.

(** ** A concrete environment

    A small world on which the program can be run: it counts the canvases
    created so far and remembers the page last rendered.  The worker knows
    the three languages of [LANGUAGES]; files whose bytes are "corrupt"
    cannot be opened or recognized; the document "torn.pdf" announces two
    pages but its second page cannot be fetched. *)

Module Demo.

Record world : Type := mkWorld { canvases : nat; rendered : nat }.

Definition half : JS.Number := JS.NPos 5 [] 0.
Definition one : JS.Number := JS.NPos 1 [] 1.

Definition known_language (lang : string) : bool :=
  (lang =? "eng") || (lang =? "chi_sim") || (lang =? "chi_tra").

Definition env : Env world :=
  {| ext_createWorker := fun w => ([], Ok 1, w);
     ext_loadLanguage := fun _ lang w =>
       ([mkLog "loading language traineddata" one],
        if known_language lang then Ok tt else Err "unknown language", w);
     ext_initialize := fun _ lang w =>
       ([mkLog "initializing api" one],
        if known_language lang then Ok tt else Err "unknown language", w);
     ext_recognize := fun _ img w =>
       ([mkLog "recognizing text" half; mkLog "recognizing text" one],
        match img with
        | ImgFile f =>
            if bytes f =? "corrupt" then Err "cannot read image"
            else Ok ("text of " ++ name f)
        | ImgDataURL u => Ok ("text of " ++ u)
        end, w);
     ext_terminate := fun _ w => ([], Ok tt, w);
     ext_createObjectURL := fun f w => ("blob:" ++ name f, w);
     ext_revokeObjectURL := fun _ w => w;
     ext_getDocument := fun u w =>
       (if u =? "blob:corrupt.pdf" then Err "invalid PDF"
        else if u =? "blob:torn.pdf" then Ok (mkPdf 7 2)
        else Ok (mkPdf 1 2), w);
     ext_getPage := fun pdf i w =>
       (if (pdf_id pdf =? 7)%nat && (i =? 2)%nat then Err "page missing"
        else if (1 <=? i)%nat && (i <=? numPages pdf)%nat then Ok i
        else Err "page out of range", w);
     ext_getViewport := fun _ _ w => (Ok (mkViewport 1188 918), w);
     ext_createCanvas := fun w =>
       (canvases w, mkWorld (S (canvases w)) (rendered w));
     ext_getContext := fun c w => (Some c, w);
     ext_setCanvasHeight := fun _ _ w => w;
     ext_setCanvasWidth := fun _ _ w => w;
     ext_render := fun pg _ _ w => (Ok tt, mkWorld (canvases w) pg);
     ext_toDataURL := fun _ _ w =>
       (Ok ("png:page" ++ JS.nat_string (rendered w)), w) |}.

(** The same collaborators, except that no worker can be created. *)
Definition broken : Env world :=
  mkEnv (fun w => ([], Err "cannot load the worker script", w))
    (ext_loadLanguage env) (ext_initialize env) (ext_recognize env)
    (ext_terminate env) (ext_createObjectURL env) (ext_revokeObjectURL env)
    (ext_getDocument env) (ext_getPage env) (ext_getViewport env)
    (ext_createCanvas env) (ext_getContext env) (ext_setCanvasHeight env)
    (ext_setCanvasWidth env) (ext_render env) (ext_toDataURL env).

Definition w0 : world := mkWorld 0 0.

Definition png : File := mkFile "good.png" "image/png" "pixels".
Definition doc : File := mkFile "doc.pdf" "application/pdf" "two pages".
Definition corrupt : File := mkFile "corrupt.pdf" "application/pdf" "corrupt".
Definition torn : File := mkFile "torn.pdf" "application/pdf" "torn".

Definition ui (fs : list File) (lang : string) : UI :=
  mkUI fs false "old results" (JS.Int 0) (Some "old error") lang.

Definition start (fs : list File) (lang : string) : St world :=
  mkSt w0 (ui fs lang).

(** Three runs: a queue with a failing document between two good files,
    a run in a language the worker does not know, and an empty queue. *)
Definition mixed : St world := start [png; torn; doc] "eng".
Definition aborted : St world := start [png; doc] "deu".
Definition empty : St world := start [] "eng".

(** A run in which every file is processed. *)
Definition clean : St world := start [png; doc] "eng".

End Demo.

(** ** Further observations *)

(** The events of one iteration of the page loop. *)
Definition is_page_event (e : Event) : bool :=
  match e with
  | EvGetPage _ _ _ | EvGetViewport _ _ _ | EvCreateCanvas _
  | EvGetContext _ _ | EvSetCanvasHeight _ _ | EvSetCanvasWidth _ _
  | EvRender _ _ _ _ | EvToDataURL _ _ _ | EvRecognize _ _ _
  | EvSetProgress _ => true
  | _ => false
  end.

(** The events of the processing of one file, before the catch. *)
Definition is_dispatch_event (e : Event) : bool :=
  match e with
  | EvSetProgress _ => true
  | _ => is_file_work e
  end.

Definition is_consoleError (e : Event) : bool :=
  match e with EvConsoleError _ _ => true | _ => false end.

Definition is_setIsProcessing (e : Event) : bool :=
  match e with EvSetIsProcessing _ => true | _ => false end.

(** A call of a collaborator: of the worker, or file work. *)
Definition is_call (e : Event) : bool :=
  match e with
  | EvCreateWorker _ | EvLoadLanguage _ _ _ | EvInitialize _ _ _
  | EvTerminate _ _ => true
  | _ => is_file_work e
  end.

(** The object URLs created and revoked, in order. *)
Definition created_urls (t : list Event) : list string :=
  flat_map
    (fun e => match e with EvCreateObjectURL _ u => [u] | _ => [] end) t.

Definition revoked_urls (t : list Event) : list string :=
  flat_map
    (fun e => match e with EvRevokeObjectURL u => [u] | _ => [] end) t.

(** The number of files whose processing threw. *)
Definition failures (rs : list (result string)) : nat :=
  length (filter (fun r => match r with Err _ => true | Ok _ => false end) rs).

(** [emits p m]: whatever the state, [m] produces only events that [p]
    selects. *)
Definition emits {world A} (p : Event -> bool) (m : M world A) : Prop :=
  forall s, Forall (fun e => p e = true) (evs (m s)).

(** ** What is rendered (lines 115-207)

    The parts of the page whose presence or text depends on the hooks. *)

(** [progress.toFixed(0)] and `${progress}` for the values [progress]
    takes. *)
Definition num_string (v : JS.Num) : string :=
  match v with
  | JS.NaN => "NaN"
  | JS.Int z =>
      (if (z <? 0)%Z then "-" else "") ++ JS.nat_string (Z.abs_nat z)
  end.

Record Button : Type := mkButton {
  disabled : bool;
  label : string
}.

Record View : Type := mkView {
  error_banner : option string;
  uploaded_files : option (list string * Button);
  progress_bar : option string;
  results_panel : option string
}.

(** A string in a JSX condition [s && (...)]: the empty string is falsy. *)
Definition truthy (s : string) : bool := negb (s =? "").

Definition view (u : UI) : View :=
  {| error_banner :=
       match error u with
       | Some msg => if truthy msg then Some msg else None
       | None => None
       end;
     uploaded_files :=
       if (0 <? length (files u))%nat then
         Some (map name (files u),
               mkButton (isProcessing u)
                 (if isProcessing u
                  then "Processing... " ++ num_string (progress u) ++ "%"
                  else "Process Files"))
       else None;
     progress_bar :=
       if isProcessing u then Some (num_string (progress u) ++ "%") else None;
     results_panel :=
       if truthy (results u) then Some (results u) else None |}.

(** ** onDrop (lines 34-43) *)

Definition with_files (fs : list File) (u : UI) : UI :=
  mkUI fs (isProcessing u) (results u) (progress u) (error u)
       (selectedLanguage u).

Section Drop.

Variable world : Type.
Variable E : Env world.

(** acceptedFiles.map(file => Object.assign(file, {preview:
    URL.createObjectURL(file)})): each file, in order, with the object
    URL made for it. *)
Fixpoint assign_previews (acceptedFiles : list File) (w : world)
    : list (File * string) * world :=
  match acceptedFiles with
  | [] => ([], w)
  | file :: rest =>
      match ext_createObjectURL E file w with
      | (preview, w1) =>
          match assign_previews rest w1 with
          | (withPreview, w2) => ((file, preview) :: withPreview, w2)
          end
      end
  end.

(** onDrop: setFiles of the files with their previews, then
    setError(null).  The result carries the previews beside the state. *)
Definition onDrop (acceptedFiles : list File) (s : St world)
    : St world * list (File * string) :=
  match assign_previews acceptedFiles (st_world s) with
  | (withPreview, w') =>
      (mkSt w' (with_error None (with_files (map fst withPreview) (st_ui s))),
       withPreview)
  end.

End Drop.

(** What console.error was given, in order. *)
Definition console_errors (t : list Event) : list (string * exn) :=
  flat_map
    (fun e => match e with EvConsoleError msg x => [(msg, x)] | _ => [] end)
    t.

(** What the file loop is expected to log: for each file whose processing
    threw, in queue order, the file's name and the error. *)
Fixpoint failure_log (fs : list File) (rs : list (result string))
    : list (string * exn) :=
  match fs, rs with
  | f :: fs', Err x :: rs' =>
      ("Error processing file " ++ name f ++ ":", x) :: failure_log fs' rs'
  | _ :: fs', Ok _ :: rs' => failure_log fs' rs'
  | _, _ => []
  end.

(** ** Basic facts about traces *)

Lemma string_app_assoc (a b c : string) : (a ++ b) ++ c = a ++ (b ++ c).
Proof. induction a as [|x a IH]; simpl; [reflexivity | now rewrite IH]. Qed.

Lemma string_app_nil_r (a : string) : a ++ "" = a.
Proof. induction a as [|x a IH]; simpl; [reflexivity | now rewrite IH]. Qed.

Lemma count_app (p : Event -> bool) (t1 t2 : list Event) :
  count p (t1 ++ t2) = count p t1 + count p t2.
Proof.
  unfold count. now rewrite filter_app, length_app.
Qed.

Lemma count_cons (p : Event -> bool) (e : Event) (t : list Event) :
  count p (e :: t) = (if p e then 1 else 0) + count p t.
Proof. unfold count; simpl. now destruct (p e). Qed.

Lemma count_none (p : Event -> bool) (t : list Event) :
  Forall (fun e => p e = false) t -> count p t = 0.
Proof.
  unfold count. induction 1 as [|e t He _ IH]; simpl; [reflexivity|].
  now rewrite He.
Qed.

Lemma lifecycle_app (t1 t2 : list Event) :
  lifecycle (t1 ++ t2) = (lifecycle t1 ++ lifecycle t2)%list.
Proof. apply filter_app. Qed.

(** Counting events of the life cycle may be done on the life cycle. *)
Lemma count_lifecycle (p : Event -> bool) (t : list Event) :
  (forall e, p e = true -> is_lifecycle e = true) ->
  count p t = count p (lifecycle t).
Proof.
  intros Hp. unfold count, lifecycle.
  induction t as [|e t IH]; simpl; [reflexivity|].
  destruct (is_lifecycle e) eqn:Hl; simpl.
  - destruct (p e); simpl; now rewrite IH.
  - destruct (p e) eqn:Hpe; [|exact IH].
    apply Hp in Hpe. congruence.
Qed.

Lemma in_lifecycle (e : Event) (t : list Event) :
  is_lifecycle e = true -> In e t -> In e (lifecycle t).
Proof. intros Hl Hin. apply filter_In. now split. Qed.

Lemma lifecycle_progress (vs : list JS.Num) :
  lifecycle (map EvSetProgress vs) = [].
Proof. induction vs; simpl; auto. Qed.

Lemma file_level_progress (wk : Worker) (vs : list JS.Num) :
  Forall (file_level wk) (map EvSetProgress vs).
Proof. induction vs; simpl; constructor; simpl; auto. Qed.

Lemma lifecycle_file_level (wk : Worker) (t : list Event) :
  Forall (file_level wk) t -> Forall (file_work wk) (lifecycle t).
Proof.
  induction 1 as [|e t He _ IH]; simpl; [constructor|].
  destruct e; simpl in *; auto.
Qed.

(** File work contains none of the events that [p] selects, when [p]
    selects no file work. *)
Lemma count_file_work (p : Event -> bool) (wk : Worker) (t : list Event) :
  (forall e, is_file_work e = true -> p e = false) ->
  Forall (file_work wk) t -> count p t = 0.
Proof.
  intros Hp Ht. apply count_none.
  eapply Forall_impl; [|exact Ht]. intros e [He _]. now apply Hp.
Qed.

Lemma ui_frame_refl (u : UI) : ui_frame u u.
Proof. repeat split. Qed.

Lemma ui_frame_trans (u1 u2 u3 : UI) :
  ui_frame u1 u2 -> ui_frame u2 u3 -> ui_frame u1 u3.
Proof.
  unfold ui_frame. intros (?&?&?&?&?) (?&?&?&?&?).
  repeat split; congruence.
Qed.

Lemma ui_frame_progress_after (vs : list JS.Num) (u : UI) :
  ui_frame u (progress_after vs u).
Proof.
  revert u. induction vs as [|v vs IH]; intros u; simpl.
  - apply ui_frame_refl.
  - eapply ui_frame_trans; [|apply IH]. repeat split.
Qed.

Lemma replay_app (t1 t2 : list Event) (u : UI) :
  replay (t1 ++ t2) u = replay t2 (replay t1 u).
Proof. apply fold_left_app. Qed.

Lemma replay_progress (vs : list JS.Num) (u : UI) :
  replay (map EvSetProgress vs) u = progress_after vs u.
Proof.
  revert u. induction vs as [|v vs IH]; intros u; simpl; [reflexivity|].
  apply IH.
Qed.

Lemma replay_file_work (wk : Worker) (t : list Event) :
  Forall (file_work wk) t -> forall u, replay t u = u.
Proof.
  induction 1 as [|e t [He _] _ IH]; intros u; simpl; [reflexivity|].
  rewrite <- (IH u) at 2. f_equal. now destruct e.
Qed.

(** The hooks other than [progress] are decided by the life cycle. *)
Lemma replay_lifecycle (t : list Event) :
  forall u u', ui_frame u u' -> ui_frame (replay (lifecycle t) u) (replay t u').
Proof.
  induction t as [|e t IH]; intros u u' Hf; simpl; [exact Hf|].
  destruct e; simpl; apply IH;
    try exact Hf;
    destruct Hf as (?&?&?&?&?); repeat split; simpl; assumption.
Qed.

Lemma flat_map_progress {B} (f : Event -> list B) (vs : list JS.Num) :
  (forall v, f (EvSetProgress v) = []) ->
  flat_map f (map EvSetProgress vs) = [].
Proof.
  intros Hf. induction vs as [|v vs IH]; simpl; [reflexivity|].
  now rewrite Hf, IH.
Qed.

Lemma count_progress (p : Event -> bool) (vs : list JS.Num) :
  (forall v, p (EvSetProgress v) = false) ->
  count p (map EvSetProgress vs) = 0.
Proof.
  intros Hp. apply count_none. apply Forall_forall. intros e He.
  apply in_map_iff in He. destruct He as (v & <- & _). apply Hp.
Qed.

Section Properties.

Variable world : Type.
Variable E : Env world.

(** *** The combinators, projection by projection *)

Lemma res_bind {A B} (m : M world A) (k : A -> M world B) s :
  res (bind m k s) =
  match res (m s) with
  | Ok a => res (k a (st (m s)))
  | Err e => Err e
  end.
Proof.
  unfold bind. destruct (m s) as [[a|e] s1 t1]; simpl; [|reflexivity].
  now destruct (k a s1).
Qed.

Lemma st_bind {A B} (m : M world A) (k : A -> M world B) s :
  st (bind m k s) =
  match res (m s) with
  | Ok a => st (k a (st (m s)))
  | Err e => st (m s)
  end.
Proof.
  unfold bind. destruct (m s) as [[a|e] s1 t1]; simpl; [|reflexivity].
  now destruct (k a s1).
Qed.

Lemma evs_bind {A B} (m : M world A) (k : A -> M world B) s :
  evs (bind m k s) =
  (evs (m s)
   ++ match res (m s) with
      | Ok a => evs (k a (st (m s)))
      | Err e => []
      end)%list.
Proof.
  unfold bind. destruct (m s) as [[a|e] s1 t1]; simpl.
  - now destruct (k a s1).
  - now rewrite app_nil_r.
Qed.

Lemma res_try_catch {A} (m : M world A) h s :
  res (try_catch m h s) =
  match res (m s) with
  | Ok a => Ok a
  | Err e => res (h e (st (m s)))
  end.
Proof.
  unfold try_catch. destruct (m s) as [[a|e] s1 t1]; simpl; [reflexivity|].
  now destruct (h e s1).
Qed.

Lemma st_try_catch {A} (m : M world A) h s :
  st (try_catch m h s) =
  match res (m s) with
  | Ok a => st (m s)
  | Err e => st (h e (st (m s)))
  end.
Proof.
  unfold try_catch. destruct (m s) as [[a|e] s1 t1]; simpl; [reflexivity|].
  now destruct (h e s1).
Qed.

Lemma evs_try_catch {A} (m : M world A) h s :
  evs (try_catch m h s) =
  (evs (m s)
   ++ match res (m s) with
      | Ok a => []
      | Err e => evs (h e (st (m s)))
      end)%list.
Proof.
  unfold try_catch. destruct (m s) as [[a|e] s1 t1]; simpl.
  - now rewrite app_nil_r.
  - now destruct (h e s1).
Qed.

Lemma st_try_finally {A} (m : M world A) f s :
  st (try_finally m f s) = st (f (st (m s))).
Proof.
  unfold try_finally. destruct (m s) as [r s1 t1]; simpl.
  now destruct (f s1) as [[[]|e] s2 t2].
Qed.

Lemma evs_try_finally {A} (m : M world A) f s :
  evs (try_finally m f s) = (evs (m s) ++ evs (f (st (m s))))%list.
Proof.
  unfold try_finally. destruct (m s) as [r s1 t1]; simpl.
  now destruct (f s1) as [[[]|e] s2 t2].
Qed.

(** *** The logger and the worker's calls *)

Lemma deliver_run (logs : list LogMsg) (s : St world) :
  deliver logs s =
  mkOut (Ok tt)
        (mkSt (st_world s) (progress_after (logged logs) (st_ui s)))
        (map EvSetProgress (logged logs)).
Proof.
  revert s. induction logs as [|m logs IH]; intros [w u]; simpl.
  - reflexivity.
  - unfold bind, logger. destruct (status m =? "recognizing text"); simpl.
    + rewrite IH. reflexivity.
    + rewrite IH. reflexivity.
Qed.

Lemma worker_call_run {A} (op : world -> list LogMsg * result A * world)
    (ev : result A -> Event) (s : St world) logs r w' :
  op (st_world s) = (logs, r, w') ->
  worker_call op ev s =
  mkOut r (mkSt w' (progress_after (logged logs) (st_ui s)))
        (ev r :: map EvSetProgress (logged logs)).
Proof.
  intros H. unfold worker_call. rewrite H, deliver_run. reflexivity.
Qed.

Lemma evs_worker_call {A} (op : world -> list LogMsg * result A * world)
    (ev : result A -> Event) s :
  exists vs,
    evs (worker_call op ev s) =
    ev (res (worker_call op ev s)) :: map EvSetProgress vs.
Proof.
  destruct (op (st_world s)) as [[logs r] w'] eqn:H.
  exists (logged logs). now rewrite (@worker_call_run _ op ev s logs r w' H).
Qed.

Lemma lifecycle_worker_call {A}
    (op : world -> list LogMsg * result A * world) ev s :
  (forall r, is_lifecycle (ev r) = true) ->
  lifecycle (evs (worker_call op ev s)) = [ev (res (worker_call op ev s))].
Proof.
  intros Hev. destruct (evs_worker_call op ev s) as [vs ->].
  simpl. fold (lifecycle (map EvSetProgress vs)).
  now rewrite Hev, lifecycle_progress.
Qed.

(** *** The hooks are decided by the trace *)

Lemma traced_ret {A} (a : A) : traced (ret (world:=world) a).
Proof. intros s; reflexivity. Qed.

Lemma traced_bind {A B} (m : M world A) (k : A -> M world B) :
  traced m -> (forall a, traced (k a)) -> traced (bind m k).
Proof.
  intros Hm Hk s. rewrite st_bind, evs_bind, replay_app, <- Hm.
  destruct (res (m s)) as [a|e]; [apply Hk | reflexivity].
Qed.

Lemma traced_try_catch {A} (m : M world A) h :
  traced m -> (forall e, traced (h e)) -> traced (try_catch m h).
Proof.
  intros Hm Hh s. rewrite st_try_catch, evs_try_catch, replay_app, <- Hm.
  destruct (res (m s)) as [a|e]; [reflexivity | apply Hh].
Qed.

Lemma traced_try_finally {A} (m : M world A) f :
  traced m -> traced f -> traced (try_finally m f).
Proof.
  intros Hm Hf s. rewrite st_try_finally, evs_try_finally, replay_app, <- Hm.
  apply Hf.
Qed.

Lemma traced_update_ui f ev :
  (forall u, apply_event u ev = f u) -> traced (update_ui (world:=world) f ev).
Proof. intros H s; simpl. now rewrite H. Qed.

Lemma traced_worker_call {A} (op : world -> list LogMsg * result A * world)
    ev :
  (forall r u, apply_event u (ev r) = u) -> traced (worker_call op ev).
Proof.
  intros Hev s. destruct (op (st_world s)) as [[logs r] w'] eqn:H.
  rewrite (@worker_call_run _ op ev s logs r w' H); simpl.
  now rewrite Hev, replay_progress.
Qed.

Lemma traced_call {A} (op : world -> result A * world) ev :
  (forall r u, apply_event u (ev r) = u) -> traced (call op ev).
Proof.
  intros Hev [w u]. unfold call; simpl.
  destruct (op w) as [r w']; simpl. now rewrite Hev.
Qed.

Lemma traced_call_total {A} (op : world -> A * world) ev :
  (forall a u, apply_event u (ev a) = u) -> traced (call_total op ev).
Proof.
  intros Hev [w u]. unfold call_total; simpl.
  destruct (op w) as [a w']; simpl. now rewrite Hev.
Qed.

Lemma traced_call_unit (op : world -> world) ev :
  (forall u, apply_event u ev = u) -> traced (call_unit op ev).
Proof. intros Hev [w u]; simpl. now rewrite Hev. Qed.

Lemma traced_console_error msg e :
  traced (console_error (world:=world) msg e).
Proof. intros s; reflexivity. Qed.

Lemma traced_get_ui : traced (get_ui (world:=world)).
Proof. intros s; reflexivity. Qed.

Ltac traced_step :=
  first
    [ apply traced_ret
    | apply traced_get_ui
    | apply traced_console_error
    | apply traced_update_ui; reflexivity
    | apply traced_worker_call; reflexivity
    | apply traced_call; reflexivity
    | apply traced_call_total; reflexivity
    | apply traced_call_unit; reflexivity
    | apply traced_bind; [|intro]
    | apply traced_try_catch; [|intro]
    | apply traced_try_finally ].

Lemma traced_pages_loop wk pdf todo :
  forall i text, traced (pages_loop E wk pdf todo i text).
Proof.
  induction todo as [|todo IH]; intros i text; simpl.
  - apply traced_ret.
  - unfold getPage, getViewport, createCanvas, getContext, setCanvasHeight,
      setCanvasWidth, render, toDataURL, recognize.
    repeat (first [apply IH | traced_step]).
Qed.

Lemma traced_dispatch wk f : traced (dispatch E wk f).
Proof.
  unfold dispatch. destruct (type f =? "application/pdf").
  - unfold processPDF, createObjectURL, getDocument, revokeObjectURL.
    repeat (first [apply traced_pages_loop | traced_step]).
  - unfold processImage, recognize. repeat traced_step.
Qed.

Lemma traced_files_loop wk fs :
  forall acc, traced (files_loop E wk fs acc).
Proof.
  induction fs as [|f fs IH]; intros acc; simpl.
  - apply traced_ret.
  - repeat (first [apply IH | apply traced_dispatch | traced_step]).
Qed.

Lemma traced_processFiles : traced (processFiles E).
Proof.
  unfold processFiles, setIsProcessing, setProgress, setResults, setError,
    createWorker, loadLanguage, initialize, terminate.
  repeat (first [apply traced_files_loop | traced_step]).
Qed.

(** *** File-level computations *)

Lemma tame_ret {A} wk (a : A) : tame wk (ret (world:=world) a).
Proof. intros s; constructor. Qed.

Lemma tame_bind {A B} wk (m : M world A) (k : A -> M world B) :
  tame wk m -> (forall a, tame wk (k a)) -> tame wk (bind m k).
Proof.
  intros Hm Hk s. rewrite evs_bind. apply Forall_app. split; [apply Hm|].
  destruct (res (m s)); [apply Hk | constructor].
Qed.

Lemma tame_try_catch {A} wk (m : M world A) (h : exn -> M world A) :
  tame wk m -> (forall e, tame wk (h e)) -> tame wk (try_catch m h).
Proof.
  intros Hm Hh s. rewrite evs_try_catch. apply Forall_app.
  split; [apply Hm|].
  destruct (res (m s)); [constructor | apply Hh].
Qed.

Lemma tame_call {A} wk (op : world -> result A * world) ev :
  (forall r, file_level wk (ev r)) -> tame wk (call op ev).
Proof.
  intros Hev [w u]. unfold call; simpl.
  destruct (op w) as [r w']; simpl. repeat constructor; apply Hev.
Qed.

Lemma tame_call_total {A} wk (op : world -> A * world) ev :
  (forall a, file_level wk (ev a)) -> tame wk (call_total op ev).
Proof.
  intros Hev [w u]. unfold call_total; simpl.
  destruct (op w) as [a w']; simpl. repeat constructor; apply Hev.
Qed.

Lemma tame_call_unit wk (op : world -> world) ev :
  file_level wk ev -> tame wk (call_unit op ev).
Proof. intros Hev [w u]. repeat constructor; apply Hev. Qed.

Lemma tame_recognize wk img : tame wk (recognize E wk img).
Proof.
  intros s. unfold recognize.
  destruct (evs_worker_call (ext_recognize E wk img) (EvRecognize wk img) s)
    as [vs ->].
  constructor; [now split | apply file_level_progress].
Qed.

Lemma tame_console_error wk msg e :
  tame wk (console_error (world:=world) msg e).
Proof. intros s; repeat constructor. Qed.

Ltac tame_step :=
  first
    [ apply tame_ret
    | apply tame_recognize
    | apply tame_console_error
    | apply tame_call; intro; now split
    | apply tame_call_total; intro; now split
    | apply tame_call_unit; now split
    | apply tame_bind; [|intro]
    | apply tame_try_catch; [|intro] ].

Lemma tame_processImage wk f : tame wk (processImage E wk f).
Proof. unfold processImage. repeat tame_step. Qed.

Lemma tame_pages_loop wk pdf todo :
  forall i text, tame wk (pages_loop E wk pdf todo i text).
Proof.
  induction todo as [|todo IH]; intros i text; simpl.
  - apply tame_ret.
  - unfold getPage, getViewport, createCanvas, getContext, setCanvasHeight,
      setCanvasWidth, render, toDataURL.
    repeat (first [apply IH | tame_step]).
Qed.

Lemma tame_processPDF wk f : tame wk (processPDF E wk f).
Proof.
  unfold processPDF, createObjectURL, getDocument, revokeObjectURL.
  repeat (first [apply tame_pages_loop | tame_step]).
Qed.

Lemma tame_dispatch wk f : tame wk (dispatch E wk f).
Proof.
  unfold dispatch. destruct (type f =? "application/pdf").
  - apply tame_processPDF.
  - apply tame_processImage.
Qed.

Lemma tame_files_loop wk fs :
  forall acc, tame wk (files_loop E wk fs acc).
Proof.
  induction fs as [|f fs IH]; intros acc; simpl.
  - apply tame_ret.
  - repeat (first [apply IH | apply tame_dispatch | tame_step]).
Qed.

(** *** The loop over the queue *)

Lemma files_loop_failure wk f rest acc s e s1 t1 :
  dispatch E wk f s = mkOut (Err e) s1 t1 ->
  files_loop E wk (f :: rest) acc s =
  let o := files_loop E wk rest (acc ++ file_block (name f) fail_body) s1 in
  mkOut (res o) (st o)
        (t1 ++ EvConsoleError ("Error processing file " ++ name f ++ ":") e
            :: evs o)%list.
Proof.
  intros H. simpl. unfold bind at 1. unfold try_catch, bind at 1.
  rewrite H. simpl.
  destruct (files_loop E wk rest _ s1) as [r s2 t2]; simpl.
  now rewrite <- app_assoc.
Qed.

Lemma files_loop_success wk f rest acc s text s1 t1 :
  dispatch E wk f s = mkOut (Ok text) s1 t1 ->
  files_loop E wk (f :: rest) acc s =
  let o := files_loop E wk rest (acc ++ file_block (name f) text) s1 in
  mkOut (res o) (st o) (t1 ++ evs o)%list.
Proof.
  intros H. simpl. unfold bind at 1. unfold try_catch, bind at 1.
  rewrite H. simpl. rewrite app_nil_r.
  destruct (files_loop E wk rest _ s1) as [r s2 t2]; reflexivity.
Qed.

Lemma files_loop_report wk fs :
  forall acc s,
    res (files_loop E wk fs acc s) =
    Ok (acc ++ report fs (map body_of (outcomes E wk fs s))).
Proof.
  induction fs as [|f fs IH]; intros acc s.
  - simpl. now rewrite string_app_nil_r.
  - destruct (dispatch E wk f s) as [[text|e] s1 t1] eqn:Hd.
    + erewrite files_loop_success by exact Hd. simpl.
      rewrite IH, Hd. simpl. now rewrite string_app_assoc.
    + erewrite files_loop_failure by exact Hd. simpl.
      rewrite IH, Hd. simpl. now rewrite string_app_assoc.
Qed.

Lemma outcomes_length wk fs :
  forall s, length (outcomes E wk fs s) = length fs.
Proof. induction fs as [|f fs IH]; intros s; simpl; auto. Qed.

(** *** The life cycle of a run *)

Lemma guarded_lifecycle wk lang fs (s : St world) :
  exists r1 r2 work out,
    lifecycle
      (evs
         (try_catch
            (bind (loadLanguage E wk lang)
               (fun _ =>
                  bind (initialize E wk lang)
                    (fun _ =>
                       bind (files_loop E wk fs "")
                         (fun combinedResult => setResults combinedResult))))
            (fun error =>
               bind (console_error "OCR Error:" error)
                 (fun _ => setError (Some fatal_message)))
            s))
    = after_load wk lang r1 r2 work out
    /\ Forall (file_work wk) work
    /\ exists s3, out = report fs (map body_of (outcomes E wk fs s3)).
Proof.
  rewrite evs_try_catch, res_bind, evs_bind, lifecycle_app, lifecycle_app.
  unfold loadLanguage at 1 2 3.
  rewrite lifecycle_worker_call by reflexivity.
  fold (loadLanguage E wk lang).
  destruct (res (loadLanguage E wk lang s)) as [[]|e1] eqn:H1.
  2:{ exists (Err e1), (Ok tt), [],
        (report fs (map body_of (outcomes E wk fs s))).
      simpl. repeat split; auto. now exists s. }
  set (s1 := st (loadLanguage E wk lang s)).
  rewrite res_bind, evs_bind, lifecycle_app.
  unfold initialize at 1 2 3.
  rewrite lifecycle_worker_call by reflexivity.
  fold (initialize E wk lang).
  destruct (res (initialize E wk lang s1)) as [[]|e2] eqn:H2.
  2:{ exists (Ok tt), (Err e2), [],
        (report fs (map body_of (outcomes E wk fs s))).
      simpl. repeat split; auto. now exists s. }
  set (s2 := st (initialize E wk lang s1)).
  rewrite res_bind, evs_bind, lifecycle_app, files_loop_report. simpl.
  exists (Ok tt), (Ok tt), (lifecycle (evs (files_loop E wk fs "" s2))),
    (report fs (map body_of (outcomes E wk fs s2))).
  simpl. rewrite app_nil_r. repeat split.
  - apply lifecycle_file_level. apply tame_files_loop.
  - now exists s2.
Qed.

Lemma release_lifecycle wk (s : St world) :
  exists rt,
    lifecycle
      (evs
         (bind (terminate E wk)
            (fun _ =>
               bind (setIsProcessing false)
                 (fun _ => setProgress (JS.Int 0))) s))
    = closing wk rt.
Proof.
  rewrite evs_bind, lifecycle_app. unfold terminate at 1 2.
  rewrite lifecycle_worker_call by reflexivity.
  fold (terminate E wk).
  exists (res (terminate E wk s)).
  destruct (res (terminate E wk s)) as [[]|e]; reflexivity.
Qed.

(** Every run has the life cycle [expected_lifecycle]: the reset of the
    hooks, createWorker, and - when a worker was delivered - loadLanguage,
    initialize, the file work, the report or the error message, and
    terminate. *)
Lemma processFiles_lifecycle (s : St world) :
  exists r0 r1 r2 rt work out,
    lifecycle (evs (processFiles E s)) =
      expected_lifecycle (selectedLanguage (st_ui s)) r0 r1 r2 work out rt
    /\ (forall wk, r0 = Ok wk ->
        Forall (file_work wk) work
        /\ exists s3,
             out = report (files (st_ui s))
                     (map body_of (outcomes E wk (files (st_ui s)) s3))).
Proof.
  unfold processFiles.
  repeat (rewrite evs_bind, lifecycle_app; simpl).
  unfold createWorker.
  destruct (ext_createWorker E (st_world s)) as [[l0 r0] w1] eqn:H0.
  erewrite worker_call_run by exact H0. simpl.
  rewrite lifecycle_progress. simpl.
  destruct r0 as [wk|e0].
  2:{ exists (Err e0), (Ok tt), (Ok tt), (Ok tt), [], "".
      split; [reflexivity | discriminate]. }
  rewrite evs_bind. simpl. rewrite evs_try_finally, lifecycle_app.
  match goal with
  | |- context [progress_after ?vs ?u] =>
      destruct (ui_frame_progress_after vs u) as (Hf & _ & _ & _ & Hl);
      simpl in Hf, Hl; rewrite Hf, Hl
  end.
  match goal with
  | |- context [try_catch _ _ ?s1] =>
      destruct (guarded_lifecycle wk (selectedLanguage (st_ui s))
                  (files (st_ui s)) s1)
        as (r1 & r2 & work & out & -> & Hr & Ho)
  end.
  match goal with
  | |- context [bind (terminate E wk) _ ?s1] =>
      destruct (release_lifecycle wk s1) as (rt & ->)
  end.
  exists (Ok wk), r1, r2, rt, work, out. split.
  - reflexivity.
  - intros wk' [= <-]. now split.
Qed.

(** The hooks a run leaves, but for [progress], are those of replaying
    its life cycle. *)
Lemma processFiles_hooks (s : St world) :
  ui_frame (replay (lifecycle (evs (processFiles E s))) (st_ui s))
           (st_ui (st (processFiles E s))).
Proof.
  rewrite traced_processFiles. apply replay_lifecycle, ui_frame_refl.
Qed.

End Properties.

(** ** The program's strings and the specified format *)

Lemma file_block_spec (nm : string) (r : result string) :
  file_block nm (body_of r) = Spec.file_entry nm (Spec.body r).
Proof. destruct r; reflexivity. Qed.

Lemma report_spec (fs : list File) :
  forall rs, report fs (map body_of rs) = Spec.report (Spec.entries fs rs).
Proof.
  induction fs as [|f fs IH]; intros [|r rs]; try reflexivity.
  change (file_block (name f) (body_of r) ++ report fs (map body_of rs)
          = Spec.file_entry (name f) (Spec.body r)
            ++ Spec.report (Spec.entries fs rs)).
  now rewrite IH, file_block_spec.
Qed.

Lemma entries_names (fs : list File) (rs : list (result string)) :
  length rs = length fs -> map fst (Spec.entries fs rs) = map name fs.
Proof.
  revert rs. induction fs as [|f fs IH]; intros [|r rs] H;
    try discriminate; [reflexivity|].
  simpl in *. f_equal. apply IH. lia.
Qed.

(** ** Facts about the expected life cycle *)

Lemma in_file_work (wk : Worker) (work : list Event) (e : Event) :
  Forall (file_work wk) work -> In e work -> file_work wk e.
Proof. intros H Hin. rewrite Forall_forall in H. now apply H. Qed.

Lemma expected_counts lang wk r1 r2 work out rt :
  Forall (file_work wk) work ->
  let t := expected_lifecycle lang (Ok wk) r1 r2 work out rt in
  count is_createWorker t = 1
  /\ count is_terminate t = 1
  /\ count is_loadLanguage t = 1
  /\ count is_initialize t = match r1 with Ok _ => 1 | Err _ => 0 end
  /\ count is_setResults t =
     match r1, r2 with Ok _, Ok _ => 2 | _, _ => 1 end
  /\ count is_error_message t =
     match r1, r2 with Ok _, Ok _ => 0 | _, _ => 1 end.
Proof.
  intros Hw t. subst t.
  unfold expected_lifecycle, after_load, closing, fatal_events.
  assert (Hc : count is_createWorker work = 0)
    by (eapply count_file_work; [|exact Hw]; intros e; now destruct e).
  assert (Ht : count is_terminate work = 0)
    by (eapply count_file_work; [|exact Hw]; intros e; now destruct e).
  assert (Hl : count is_loadLanguage work = 0)
    by (eapply count_file_work; [|exact Hw]; intros e; now destruct e).
  assert (Hi : count is_initialize work = 0)
    by (eapply count_file_work; [|exact Hw]; intros e; now destruct e).
  assert (Hs : count is_setResults work = 0)
    by (eapply count_file_work; [|exact Hw]; intros e; now destruct e).
  assert (Hm : count is_error_message work = 0)
    by (eapply count_file_work; [|exact Hw]; intros e; now destruct e).
  destruct r1 as [[]|e1], r2 as [[]|e2], rt as [[]|et];
    repeat (rewrite ?count_app, ?count_cons; simpl);
    rewrite ?Hc, ?Ht, ?Hl, ?Hi, ?Hs, ?Hm; repeat split; reflexivity.
Qed.

Lemma expected_hooks lang wk r1 r2 work out rt (u : UI) :
  Forall (file_work wk) work ->
  let u' := replay (expected_lifecycle lang (Ok wk) r1 r2 work out rt) u in
  results u' = match r1, r2 with Ok _, Ok _ => out | _, _ => "" end
  /\ error u' =
     match r1, r2 with Ok _, Ok _ => None | _, _ => Some fatal_message end.
Proof.
  intros Hw u'. subst u'.
  unfold expected_lifecycle, after_load, closing, fatal_events.
  destruct r1 as [[]|e1], r2 as [[]|e2], rt as [[]|et]; simpl;
    rewrite ?replay_app, ?(replay_file_work Hw); simpl; split; reflexivity.
Qed.

(** Splitting membership in an expected life cycle into its cases. *)
Ltac in_shape H Hw :=
  unfold expected_lifecycle, after_load, closing, fatal_events in H;
  simpl in H; rewrite ?in_app_iff in H; simpl in H;
  rewrite ?in_app_iff in H; simpl in H;
  repeat
    match type of H with
    | _ \/ _ => destruct H as [H|H]
    | False => contradiction
    | In _ _ => apply (in_file_work _ Hw) in H; destruct H as [H _];
                simpl in H; discriminate H
    | _ = _ => first [discriminate H | injection H as H; subst]
    end.

Lemma split_after_prefix (p : Event -> bool) (A R l1 l2 : list Event) e :
  (l1 ++ e :: l2 = A ++ R)%list -> p e = true ->
  Forall (fun x => p x = false) A ->
  exists R1, l1 = (A ++ R1)%list.
Proof.
  intros Heq He HA. revert l1 Heq.
  induction HA as [|a A Ha _ IH]; intros l1 Heq.
  - now exists l1.
  - destruct l1 as [|x l1]; simpl in Heq.
    + injection Heq as -> _. congruence.
    + injection Heq as -> Heq. destruct (IH l1 Heq) as [R1 ->].
      now exists R1.
Qed.

Lemma lifecycle_cons (e : Event) (t : list Event) :
  lifecycle (e :: t) = if is_lifecycle e then e :: lifecycle t else lifecycle t.
Proof. reflexivity. Qed.

Section Run_properties.
Variable world : Type.
Variable E : Env world.

Lemma created_shape (s : St world) wk :
  In (EvCreateWorker (Ok wk)) (evs (processFiles E s)) ->
  exists r1 r2 rt work out,
    lifecycle (evs (processFiles E s)) =
      expected_lifecycle (selectedLanguage (st_ui s)) (Ok wk) r1 r2 work out rt
    /\ Forall (file_work wk) work
    /\ exists s3,
         out = report (files (st_ui s))
                 (map body_of (outcomes E wk (files (st_ui s)) s3)).
Proof.
  intros Hin. apply in_lifecycle in Hin; [|reflexivity].
  destruct (processFiles_lifecycle E s)
    as (r0 & r1 & r2 & rt & work & out & Hs & Hw).
  rewrite Hs in Hin.
  destruct r0 as [wk'|e0].
  - destruct (Hw wk' eq_refl) as [Hfw Ho].
    assert (wk' = wk) as ->.
    { destruct r1 as [[]|e1], r2 as [[]|e2], rt as [[]|et];
        in_shape Hin Hfw; try reflexivity. }
    exists r1, r2, rt, work, out. auto.
  - in_shape Hin Hw.
Qed.

(** createWorker is awaited before the try block: when it fails, the
    call of processFiles fails with the same error and nothing else is
    done - no report, no error message, [isProcessing] left set. *)
Lemma processFiles_without_worker (s : St world) l0 e w1 :
  ext_createWorker E (st_world s) = (l0, Err e, w1) ->
  let o := processFiles E s in
  res o = Err e
  /\ lifecycle (evs o) =
     [EvSetIsProcessing true; EvSetResults ""; EvSetError None;
      EvCreateWorker (Err e)]
  /\ isProcessing (st_ui (st o)) = true
  /\ ~ completed_report o /\ ~ fatal_error o.
Proof.
  intros H0 o.
  assert (Ho : o =
    mkOut (Err e)
      (mkSt w1
         (progress_after (logged l0)
            (with_error None
               (with_results ""
                  (with_progress (JS.Int 0)
                     (with_isProcessing true (st_ui s)))))))
      ([EvSetIsProcessing true; EvSetProgress (JS.Int 0); EvSetResults "";
        EvSetError None; EvCreateWorker (Err e)]
       ++ map EvSetProgress (logged l0))%list).
  { subst o. unfold processFiles.
    do 4 (unfold bind at 1; simpl).
    unfold bind at 1. unfold createWorker.
    erewrite worker_call_run by exact H0. reflexivity. }
  rewrite Ho. simpl.
  destruct (ui_frame_progress_after (logged l0)
              (with_error None
                 (with_results ""
                    (with_progress (JS.Int 0)
                       (with_isProcessing true (st_ui s))))))
    as (_ & Hp & _). simpl in Hp.
  unfold completed_report, fatal_error. simpl.
  repeat (rewrite ?count_cons, ?count_progress by (intro; reflexivity); simpl).
  rewrite lifecycle_progress.
  split; [reflexivity|]. split; [reflexivity|]. split; [exact Hp|].
  split; [intros (H & _) | intros (_ & H & _)]; discriminate H.
Qed.
(** C2. Once createWorker has delivered a worker, the run calls
    worker.terminate exactly once, however loadLanguage, initialize, the
    files and terminate itself end (completion, completion with failed
    files, abort during load or initialization), and this call closes the
    life cycle of the run: no call of the worker follows it. *)
Theorem worker_released_exactly_once (s : St world) (wk : Worker) :
  In (EvCreateWorker (Ok wk)) (evs (processFiles E s)) ->
  count is_terminate (evs (processFiles E s)) = 1
  /\ exists pre rt,
       lifecycle (evs (processFiles E s)) = (pre ++ closing wk rt)%list
       /\ count is_terminate pre = 0.
Proof.
  intros Hin.
  destruct (created_shape s wk Hin) as (r1 & r2 & rt & work & out & Hs & Hw & _).
  destruct (expected_counts (selectedLanguage (st_ui s)) r1 r2 out rt Hw)
    as (_ & Ht & _).
  rewrite (count_lifecycle is_terminate) by (intros e; now destruct e).
  rewrite Hs. split; [exact Ht|].
  exists ([EvSetIsProcessing true; EvSetResults ""; EvSetError None;
           EvCreateWorker (Ok wk)]
          ++ after_load wk (selectedLanguage (st_ui s)) r1 r2 work out)%list,
    rt.
  split.
  - unfold expected_lifecycle. now rewrite <- app_assoc.
  - unfold expected_lifecycle in Ht. rewrite app_assoc, count_app in Ht.
    assert (count is_terminate (closing wk rt) = 1)
      by (unfold closing; destruct rt as [[]|?]; reflexivity).
    lia.
Qed.

(** What the try block of processFiles guarantees.  If loadLanguage or
    initialize fails, no work on any file is done, the report stays empty,
    and the error message is recorded exactly once ([fatal_error]).  A run
    whose worker was created ends in exactly one of the two ways: it
    delivers its report and records no error message
    ([completed_report]), or it records the one error message and delivers
    no report ([fatal_error]); no run ends in both. *)
Lemma engine_failure_aborts_run (s : St world) :
  let o := processFiles E s in
  (forall wk lang e,
      In (EvLoadLanguage wk lang (Err e)) (evs o)
      \/ In (EvInitialize wk lang (Err e)) (evs o) ->
      count is_file_work (evs o) = 0 /\ fatal_error o)
  /\ (forall wk,
         In (EvCreateWorker (Ok wk)) (evs o) ->
         completed_report o \/ fatal_error o)
  /\ ~ (completed_report o /\ fatal_error o).
Proof.
  intros o. subst o. split; [|split].
  - intros wk lang e Hin.
    destruct (processFiles_lifecycle E s)
      as (r0 & r1 & r2 & rt & work & out & Hs & Hw).
    assert (Hin' :
      In (EvLoadLanguage wk lang (Err e)) (lifecycle (evs (processFiles E s)))
      \/ In (EvInitialize wk lang (Err e))
            (lifecycle (evs (processFiles E s))))
      by (destruct Hin as [H|H]; [left|right];
          (apply in_lifecycle; [reflexivity | exact H])).
    clear Hin. rewrite Hs in Hin'.
    destruct r0 as [wk0|e0]; [|destruct Hin' as [H|H]; in_shape H Hw].
    destruct (Hw wk0 eq_refl) as [Hfw _].
    destruct (expected_counts (selectedLanguage (st_ui s)) r1 r2 out rt Hfw)
      as (_ & _ & _ & _ & Hr & Hm).
    destruct (expected_hooks (selectedLanguage (st_ui s)) r1 r2 out rt
                (st_ui s) Hfw) as (Hres & Herr).
    destruct (processFiles_hooks E s) as (_ & _ & Hfr & Hfe & _).
    rewrite Hs in Hfr, Hfe.
    assert (Hfail : match r1, r2 with Ok _, Ok _ => False | _, _ => True end).
    { destruct r1 as [[]|e1], r2 as [[]|e2], rt as [[]|et]; try exact I;
        destruct Hin' as [H|H]; in_shape H Hfw. }
    split.
    + rewrite (count_lifecycle is_file_work) by (intros x; now destruct x).
      rewrite Hs. unfold expected_lifecycle, after_load, closing, fatal_events.
      destruct r1 as [[]|e1], r2 as [[]|e2], rt as [[]|et];
        try contradiction; reflexivity.
    + unfold fatal_error.
      rewrite (count_lifecycle is_setResults) by (intros x; now destruct x).
      rewrite (count_lifecycle is_error_message)
        by (intros x; destruct x as [| | |[]| | | | | | | | | | | | | | | | |];
            simpl; congruence).
      rewrite Hs, Hr, Hm, Hfr, Hfe, Hres, Herr.
      destruct r1 as [[]|e1], r2 as [[]|e2]; try contradiction; auto.
  - intros wk Hin.
    destruct (created_shape s wk Hin)
      as (r1 & r2 & rt & work & out & Hs & Hfw & _).
    destruct (expected_counts (selectedLanguage (st_ui s)) r1 r2 out rt Hfw)
      as (_ & _ & _ & _ & Hr & Hm).
    destruct (expected_hooks (selectedLanguage (st_ui s)) r1 r2 out rt
                (st_ui s) Hfw) as (Hres & Herr).
    destruct (processFiles_hooks E s) as (_ & _ & Hfr & Hfe & _).
    rewrite Hs in Hfr, Hfe.
    unfold completed_report, fatal_error.
    rewrite (count_lifecycle is_setResults) by (intros x; now destruct x).
    rewrite (count_lifecycle is_error_message)
      by (intros x; destruct x as [| | |[]| | | | | | | | | | | | | | | | |];
          simpl; congruence).
    rewrite Hs, Hr, Hm, Hfr, Hfe, Hres, Herr.
    destruct r1 as [[]|e1], r2 as [[]|e2]; auto.
  - unfold completed_report, fatal_error. intros [(H1 & _) (H2 & _)].
    rewrite H1 in H2. discriminate.
Qed.

(** C5. In a run whose worker was initialized, the report that is set is
    the specified one: the concatenation "File: name\n\nbody\n\n" of one
    entry per queued file, the names in the order of the queue, the body
    of an entry being the text of its file or the fixed failure message
    according to how the processing of that file ended. *)
Theorem report_follows_queue_order (s : St world) (wk : Worker) :
  let o := processFiles E s in
  let fs := files (st_ui s) in
  In (EvInitialize wk (selectedLanguage (st_ui s)) (Ok tt)) (evs o) ->
  exists outs,
    length outs = length fs
    /\ (exists s3, outs = outcomes E wk fs s3)
    /\ map fst (Spec.entries fs outs) = map name fs
    /\ results (st_ui (st o)) = Spec.report (Spec.entries fs outs)
    /\ In (EvSetResults (Spec.report (Spec.entries fs outs))) (evs o).
Proof.
  intros o fs Hin. subst o fs.
  apply in_lifecycle in Hin; [|reflexivity].
  destruct (processFiles_lifecycle E s)
    as (r0 & r1 & r2 & rt & work & out & Hs & Hw).
  rewrite Hs in Hin.
  destruct r0 as [wk0|e0]; [|in_shape Hin Hw].
  destruct (Hw wk0 eq_refl) as [Hfw (s3 & Ho)].
  destruct (@expected_hooks (selectedLanguage (st_ui s)) wk0 r1 r2 work out
              rt (st_ui s) Hfw) as (Hres & _).
  destruct (processFiles_hooks E s) as (_ & _ & Hfr & _).
  rewrite Hs in Hfr.
  assert (Hok : r1 = Ok tt /\ r2 = Ok tt /\ wk0 = wk).
  { destruct r1 as [[]|e1], r2 as [[]|e2], rt as [[]|et];
      in_shape Hin Hfw; auto. }
  destruct Hok as (-> & -> & ->).
  rewrite report_spec in Ho.
  exists (outcomes E wk (files (st_ui s)) s3).
  split; [apply outcomes_length|].
  split; [now exists s3|].
  split; [apply entries_names, outcomes_length|].
  rewrite <- Ho. split; [congruence|].
  assert (Hr : In (EvSetResults out) (lifecycle (evs (processFiles E s)))).
  { rewrite Hs. unfold expected_lifecycle, after_load.
    simpl. do 6 right. rewrite !in_app_iff. left. right. now left. }
  apply filter_In in Hr. apply Hr.
Qed.

(** C8. Every run calls createWorker exactly once and initialize at most
    once, exactly once when the language was loaded; initialize is given
    the selected language and the worker that createWorker delivered; and
    whenever a file is worked on, that worker has been created and
    successfully initialized with the selected language before, and the
    work uses that worker. *)
Theorem one_engine_initialized_once (s : St world) :
  let o := processFiles E s in
  let lang := selectedLanguage (st_ui s) in
  count is_createWorker (evs o) = 1
  /\ count is_initialize (evs o) <= 1
  /\ (forall wk r,
         In (EvLoadLanguage wk lang r) (evs o) ->
         r = Ok tt -> count is_initialize (evs o) = 1)
  /\ (forall wk l r,
         In (EvInitialize wk l r) (evs o) ->
         l = lang /\ In (EvCreateWorker (Ok wk)) (evs o))
  /\ (forall pre e post,
         evs o = (pre ++ e :: post)%list -> is_file_work e = true ->
         exists wk,
           In (EvCreateWorker (Ok wk)) pre
           /\ In (EvInitialize wk lang (Ok tt)) pre
           /\ file_work wk e).
Proof.
  intros o lang. subst o lang.
  destruct (processFiles_lifecycle E s)
    as (r0 & r1 & r2 & rt & work & out & Hs & Hw).
  rewrite (count_lifecycle is_createWorker) by (intros e; now destruct e).
  rewrite (count_lifecycle is_initialize) by (intros e; now destruct e).
  rewrite Hs.
  destruct r0 as [wk0|e0].
  - destruct (Hw wk0 eq_refl) as [Hfw _].
    destruct (expected_counts (selectedLanguage (st_ui s)) r1 r2 out rt Hfw)
      as (Hc & _ & _ & Hi & _).
    rewrite Hc, Hi.
    assert (Hcr : In (EvCreateWorker (Ok wk0)) (evs (processFiles E s))).
    { assert (H : In (EvCreateWorker (Ok wk0))
                     (lifecycle (evs (processFiles E s))))
        by (rewrite Hs; simpl; auto).
      apply filter_In in H. apply H. }
    split; [reflexivity|]. split; [destruct r1; lia|]. split; [|split].
    + intros wk r Hin ->. apply in_lifecycle in Hin; [|reflexivity].
      rewrite Hs in Hin.
      destruct r1 as [[]|e1]; [reflexivity|].
      destruct r2 as [[]|e2], rt as [[]|et]; in_shape Hin Hfw.
    + intros wk l r Hin. apply in_lifecycle in Hin; [|reflexivity].
      rewrite Hs in Hin.
      destruct r1 as [[]|e1], r2 as [[]|e2], rt as [[]|et];
        in_shape Hin Hfw; auto.
    + intros pre e post Heq He.
      assert (Hl : is_lifecycle e = true) by now destruct e.
      assert (Hsplit :
        (lifecycle pre ++ e :: lifecycle post)%list =
        expected_lifecycle (selectedLanguage (st_ui s)) (Ok wk0) r1 r2 work
          out rt).
      { rewrite <- Hs, Heq, lifecycle_app. simpl. now rewrite Hl. }
      assert (Hin : In e (expected_lifecycle (selectedLanguage (st_ui s))
                            (Ok wk0) r1 r2 work out rt))
        by (rewrite <- Hsplit; apply in_elt).
      assert (Hok : r1 = Ok tt /\ r2 = Ok tt /\ In e work).
      { unfold expected_lifecycle, after_load, closing, fatal_events in Hin.
        destruct r1 as [[]|e1], r2 as [[]|e2], rt as [[]|et];
          simpl in Hin; rewrite ?in_app_iff in Hin; simpl in Hin;
          repeat
            match type of Hin with
            | _ \/ _ => destruct Hin as [Hin|Hin]
            | False => contradiction
            | _ = e => subst e; discriminate He
            end; auto. }
      destruct Hok as (-> & -> & Hew).
      exists wk0.
      unfold expected_lifecycle, after_load in Hsplit.
      change
        ((lifecycle pre ++ e :: lifecycle post)%list =
         ([EvSetIsProcessing true; EvSetResults ""; EvSetError None;
           EvCreateWorker (Ok wk0);
           EvLoadLanguage wk0 (selectedLanguage (st_ui s)) (Ok tt);
           EvInitialize wk0 (selectedLanguage (st_ui s)) (Ok tt)]
          ++ ((work ++ [EvSetResults out]) ++ closing wk0 rt))%list)
        in Hsplit.
      destruct (@split_after_prefix is_file_work _ _ _ _ _ Hsplit He)
        as [R1 HR1]; [repeat constructor|].
      assert (Hsub : forall x, In x (lifecycle pre) -> In x pre)
        by (intros x Hx; apply filter_In in Hx; apply Hx).
      split; [|split].
      * apply Hsub. rewrite HR1. simpl. auto.
      * apply Hsub. rewrite HR1. simpl. auto 10.
      * eapply in_file_work; eassumption.
  - split; [reflexivity|]. split; [unfold count; simpl; lia|].
    split; [|split].
    + intros wk r Hin _. apply in_lifecycle in Hin; [|reflexivity].
      rewrite Hs in Hin. in_shape Hin Hw.
    + intros wk l r Hin. apply in_lifecycle in Hin; [|reflexivity].
      rewrite Hs in Hin. in_shape Hin Hw.
    + intros pre e post Heq He.
      assert (Hin : In e (lifecycle (evs (processFiles E s)))).
      { apply in_lifecycle; [now destruct e|]. rewrite Heq. apply in_elt. }
      rewrite Hs in Hin. simpl in Hin.
      repeat
        match type of Hin with
        | _ \/ _ => destruct Hin as [Hin|Hin]
        | False => contradiction
        | _ = e => subst e; discriminate He
        end.
Qed.

(** C10. On an empty queue, with a worker that is created, loads the
    language and initializes, the life cycle of the run is: the reset of
    the hooks, createWorker, loadLanguage, initialize, setResults of the
    empty string, terminate; no file work is done, no error is recorded
    and the report is the empty string. *)
Theorem empty_queue_run (s : St world) wk l0 w1 l1 w2 l2 w3 :
  let o := processFiles E s in
  let lang := selectedLanguage (st_ui s) in
  files (st_ui s) = [] ->
  ext_createWorker E (st_world s) = (l0, Ok wk, w1) ->
  ext_loadLanguage E wk lang w1 = (l1, Ok tt, w2) ->
  ext_initialize E wk lang w2 = (l2, Ok tt, w3) ->
  exists rt,
    lifecycle (evs o) =
      ([EvSetIsProcessing true; EvSetResults ""; EvSetError None;
        EvCreateWorker (Ok wk); EvLoadLanguage wk lang (Ok tt);
        EvInitialize wk lang (Ok tt); EvSetResults ""]
       ++ closing wk rt)%list
    /\ count is_file_work (evs o) = 0
    /\ error (st_ui (st o)) = None
    /\ results (st_ui (st o)) = "".
Proof.
  intros o lang Hfs H0 H1 H2. subst o lang.
  assert (Hshape : exists rt,
    lifecycle (evs (processFiles E s)) =
    expected_lifecycle (selectedLanguage (st_ui s)) (Ok wk) (Ok tt) (Ok tt)
      [] "" rt).
  { unfold processFiles.
    repeat (rewrite evs_bind, lifecycle_app; simpl).
    unfold createWorker. erewrite worker_call_run by exact H0. simpl.
    rewrite lifecycle_progress, evs_bind. simpl.
    rewrite evs_try_finally, lifecycle_app.
    match goal with
    | |- context [progress_after ?vs ?u] =>
        destruct (ui_frame_progress_after vs u) as (Hf & _ & _ & _ & Hl);
        simpl in Hf, Hl; rewrite Hf, Hl, Hfs
    end.
    match goal with
    | |- context [bind (terminate E wk) _ ?s1] =>
        destruct (release_lifecycle E wk s1) as (rt & ->)
    end.
    exists rt. unfold expected_lifecycle, after_load. simpl. do 4 f_equal.
    rewrite evs_try_catch, res_bind, evs_bind.
    unfold loadLanguage. erewrite worker_call_run by exact H1. simpl.
    rewrite res_bind, evs_bind.
    unfold initialize. erewrite worker_call_run by exact H2. simpl.
    rewrite app_nil_r, lifecycle_app, lifecycle_progress, lifecycle_cons,
      lifecycle_app, lifecycle_progress.
    reflexivity. }
  destruct Hshape as [rt Hs]. exists rt.
  assert (Hfw : Forall (file_work wk) []) by constructor.
  destruct (expected_hooks (selectedLanguage (st_ui s)) (Ok tt) (Ok tt) ""
              rt (st_ui s) Hfw) as (Hres & Herr).
  destruct (processFiles_hooks E s) as (_ & _ & Hfr & Hfe & _).
  rewrite Hs in Hfr, Hfe.
  rewrite (count_lifecycle is_file_work) by (intros x; now destruct x).
  rewrite Hs. repeat split.
  - destruct rt as [[]|?]; reflexivity.
  - congruence.
  - congruence.
Qed.
End Run_properties.

Section File_properties.

Variable world : Type.
Variable E : Env world.

(** Inverting a successful [bind], by the kind of its first call. *)

Lemma bind_call_ok {A B} (op : world -> result A * world) ev
    (k : A -> M world B) (s : St world) out :
  res (bind (call op ev) k s) = Ok out ->
  exists a w',
    op (st_world s) = (Ok a, w')
    /\ res (k a (mkSt w' (st_ui s))) = Ok out
    /\ evs (bind (call op ev) k s) =
       ev (Ok a) :: evs (k a (mkSt w' (st_ui s))).
Proof.
  unfold bind, call. destruct (op (st_world s)) as [[a|e] w']; simpl.
  - destruct (k a _) as [r s2 t2] eqn:Hk; simpl. intros ->.
    exists a, w'. rewrite Hk. auto.
  - discriminate.
Qed.

Lemma bind_call_total_ok {A B} (op : world -> A * world) ev
    (k : A -> M world B) (s : St world) out :
  res (bind (call_total op ev) k s) = Ok out ->
  exists a w',
    op (st_world s) = (a, w')
    /\ res (k a (mkSt w' (st_ui s))) = Ok out
    /\ evs (bind (call_total op ev) k s) =
       ev a :: evs (k a (mkSt w' (st_ui s))).
Proof.
  unfold bind, call_total. destruct (op (st_world s)) as [a w']; simpl.
  destruct (k a _) as [r s2 t2] eqn:Hk; simpl. intros ->.
  exists a, w'. rewrite Hk. auto.
Qed.

Lemma bind_call_unit_ok {B} (op : world -> world) ev
    (k : unit -> M world B) (s : St world) out :
  res (bind (call_unit op ev) k s) = Ok out ->
  res (k tt (mkSt (op (st_world s)) (st_ui s))) = Ok out
  /\ evs (bind (call_unit op ev) k s) =
     ev :: evs (k tt (mkSt (op (st_world s)) (st_ui s))).
Proof.
  unfold bind, call_unit. simpl.
  destruct (k tt _) as [r s2 t2] eqn:Hk; simpl. intros ->. auto.
Qed.

Lemma bind_worker_call_ok {A B}
    (op : world -> list LogMsg * result A * world) ev
    (k : A -> M world B) (s : St world) out :
  res (bind (worker_call op ev) k s) = Ok out ->
  exists logs a w',
    op (st_world s) = (logs, Ok a, w')
    /\ res (k a (mkSt w' (progress_after (logged logs) (st_ui s)))) = Ok out
    /\ evs (bind (worker_call op ev) k s) =
       (ev (Ok a) :: map EvSetProgress (logged logs)
        ++ evs (k a (mkSt w' (progress_after (logged logs) (st_ui s)))))%list.
Proof.
  destruct (op (st_world s)) as [[logs [a|e]] w'] eqn:Hop;
    unfold bind; rewrite (worker_call_run _ _ _ Hop).
  - destruct (k a _) as [r s2 t2] eqn:Hk; simpl. intros ->.
    exists logs, a, w'. rewrite Hk. auto.
  - discriminate.
Qed.

Lemma pages_loop_ok wk pdf todo :
  forall i text s out,
    res (pages_loop E wk pdf todo i text s) = Ok out ->
    exists texts,
      out = text ++ page_blocks i texts
      /\ pages_done i todo (evs (pages_loop E wk pdf todo i text s)) texts
      /\ opened_documents (evs (pages_loop E wk pdf todo i text s)) = [].
Proof.
  induction todo as [|todo IH]; intros i text s out H.
  - simpl in *. injection H as <-. exists []. simpl.
    rewrite string_app_nil_r. split; [reflexivity|]. split; [|reflexivity].
    now constructor.
  - simpl in H |- *.
    unfold getPage, getViewport, createCanvas, getContext, setCanvasHeight,
      setCanvasWidth, render, toDataURL, recognize in *.
    apply bind_call_ok in H as (page & w1 & _ & H & ->).
    apply bind_call_ok in H as (vp & w2 & _ & H & ->).
    apply bind_call_total_ok in H as (canvas & w3 & _ & H & ->).
    apply bind_call_total_ok in H as (ctx & w4 & _ & H & ->).
    apply bind_call_unit_ok in H as (H & ->).
    apply bind_call_unit_ok in H as (H & ->).
    apply bind_call_ok in H as ([] & w5 & _ & H & ->).
    apply bind_call_ok in H as (url & w6 & _ & H & ->).
    apply bind_worker_call_ok in H as (logs & pageText & w7 & _ & H & ->).
    match type of H with
    | res (pages_loop _ _ _ _ _ _ ?s') = _ => generalize dependent s'
    end.
    intros s' H.
    apply IH in H as (texts & -> & Hd & Hop).
    destruct Hd as [Hreq Hsc Hren Hfet Htx Hlen Hnf].
    exists (pageText :: texts). split.
    + simpl. now rewrite string_app_assoc.
    + unfold page_requests, viewport_scales, rendered_pages, fetched_pages,
        recognized_texts, opened_documents in *.
      split; [constructor|];
        try (repeat (rewrite count_cons; simpl);
             now rewrite count_app, count_progress, Hnf
               by (intro; reflexivity));
        simpl;
        unfold page_requests, viewport_scales, rendered_pages, fetched_pages,
          recognized_texts, opened_documents;
        rewrite ?flat_map_app, ?flat_map_progress by (intro; reflexivity);
        simpl; congruence.
Qed.


Lemma processPDF_ok wk f s text :
  res (processPDF E wk f s) = Ok text ->
  exists pdf texts,
    text = page_blocks 1 texts
    /\ opened_documents (evs (processPDF E wk f s)) = [pdf]
    /\ pages_done 1 (numPages pdf) (evs (processPDF E wk f s)) texts.
Proof.
  intros H. unfold processPDF, createObjectURL, getDocument in *.
  apply bind_call_total_ok in H as (url & w1 & _ & H & ->).
  apply bind_call_ok in H as (pdf & w2 & _ & H & ->).
  rewrite res_bind in H. rewrite evs_bind.
  match type of H with
  | context [pages_loop _ _ _ _ _ _ ?s'] => generalize dependent s'
  end.
  intros s' H.
  destruct (res (pages_loop E wk pdf (numPages pdf) 1 "" s')) as [out|]
    eqn:Hl; [|discriminate].
  apply pages_loop_ok in Hl as (texts & -> & Hd & Hop).
  destruct Hd as [Hreq Hsc Hren Hfet Htx Hlen Hnf].
  simpl in H. injection H as <-.
  exists pdf, texts. split; [reflexivity|].
  unfold opened_documents, page_requests, viewport_scales, rendered_pages,
    fetched_pages, recognized_texts in *.
  split; [|constructor];
    try (repeat (rewrite count_cons; simpl);
         rewrite count_app, Hnf; reflexivity);
    simpl;
    unfold opened_documents, page_requests, viewport_scales, rendered_pages,
      fetched_pages, recognized_texts;
    rewrite ?flat_map_app; simpl; rewrite ?app_nil_r; congruence.
Qed.

Lemma bind_call_err {A B} (op : world -> result A * world) ev
    (k : A -> M world B) (s : St world) (p : Event -> bool) :
  (forall e, p (ev (Err e)) = true) ->
  (forall a w', count p (evs (k a (mkSt w' (st_ui s)))) > 0
                \/ exists b, res (k a (mkSt w' (st_ui s))) = Ok b) ->
  count p (evs (bind (call op ev) k s)) > 0
  \/ exists b, res (bind (call op ev) k s) = Ok b.
Proof.
  intros Hp Hk. unfold bind, call.
  destruct (op (st_world s)) as [[a|e] w']; simpl.
  - destruct (Hk a w') as [H|[b H]];
      destruct (k a _) as [r s2 t2]; simpl in *.
    + left. rewrite count_cons. lia.
    + right. now exists b.
  - left. rewrite count_cons, Hp. simpl. lia.
Qed.

Lemma bind_call_total_err {A B} (op : world -> A * world) ev
    (k : A -> M world B) (s : St world) (p : Event -> bool) :
  (forall a w', count p (evs (k a (mkSt w' (st_ui s)))) > 0
                \/ exists b, res (k a (mkSt w' (st_ui s))) = Ok b) ->
  count p (evs (bind (call_total op ev) k s)) > 0
  \/ exists b, res (bind (call_total op ev) k s) = Ok b.
Proof.
  intros Hk. unfold bind, call_total.
  destruct (op (st_world s)) as [a w']; simpl.
  destruct (Hk a w') as [H|[b H]];
    destruct (k a _) as [r s2 t2]; simpl in *.
  - left. rewrite count_cons. lia.
  - right. now exists b.
Qed.

Lemma bind_call_unit_err {B} (op : world -> world) ev
    (k : unit -> M world B) (s : St world) (p : Event -> bool) :
  (forall w', count p (evs (k tt (mkSt w' (st_ui s)))) > 0
              \/ exists b, res (k tt (mkSt w' (st_ui s))) = Ok b) ->
  count p (evs (bind (call_unit op ev) k s)) > 0
  \/ exists b, res (bind (call_unit op ev) k s) = Ok b.
Proof.
  intros Hk. unfold bind, call_unit. simpl.
  destruct (Hk (op (st_world s))) as [H|[b H]];
    destruct (k tt _) as [r s2 t2]; simpl in *.
  - left. rewrite count_cons. lia.
  - right. now exists b.
Qed.

Lemma bind_worker_call_err {A B}
    (op : world -> list LogMsg * result A * world) ev
    (k : A -> M world B) (s : St world) (p : Event -> bool) :
  (forall e, p (ev (Err e)) = true) ->
  (forall a s', count p (evs (k a s')) > 0 \/ exists b, res (k a s') = Ok b) ->
  count p (evs (bind (worker_call op ev) k s)) > 0
  \/ exists b, res (bind (worker_call op ev) k s) = Ok b.
Proof.
  intros Hp Hk.
  destruct (op (st_world s)) as [[logs [a|e]] w'] eqn:Hop;
    unfold bind; rewrite (worker_call_run _ _ _ Hop).
  - match goal with
    | |- context [k a ?s'] => destruct (Hk a s') as [H|[b H]];
                              destruct (k a s') as [r s2 t2]; simpl in *
    end.
    + left. rewrite count_cons, count_app. lia.
    + right. now exists b.
  - left. simpl. rewrite count_cons, Hp. simpl. lia.
Qed.

Lemma pages_loop_fails (p : Event -> bool) wk pdf todo :
  (forall e, step_failed e = true -> p e = true) ->
  forall i text s,
    count p (evs (pages_loop E wk pdf todo i text s)) > 0
    \/ exists out, res (pages_loop E wk pdf todo i text s) = Ok out.
Proof.
  intros Hp.
  induction todo as [|todo IH]; intros i text s; simpl.
  - right. now exists text.
  - unfold getPage, getViewport, createCanvas, getContext, setCanvasHeight,
      setCanvasWidth, render, toDataURL, recognize.
    apply bind_call_err; [intro; now apply Hp|]. intros page w1.
    apply bind_call_err; [intro; now apply Hp|]. intros vp w2.
    apply bind_call_total_err. intros canvas w3.
    apply bind_call_total_err. intros ctx w4.
    apply bind_call_unit_err. intros w5.
    apply bind_call_unit_err. intros w6.
    apply bind_call_err; [intro; now apply Hp|]. intros [] w7.
    apply bind_call_err; [intro; now apply Hp|]. intros url w8.
    apply bind_worker_call_err; [intro; now apply Hp|]. intros pageText s'.
    apply IH.
Qed.

Lemma processPDF_fails wk f s :
  count call_failed (evs (processPDF E wk f s)) > 0
  \/ exists text, res (processPDF E wk f s) = Ok text.
Proof.
  unfold processPDF, createObjectURL, getDocument, revokeObjectURL.
  apply bind_call_total_err. intros url w1.
  apply bind_call_err; [reflexivity|]. intros pdf w2.
  rewrite evs_bind, res_bind.
  match goal with
  | |- context [pages_loop E wk pdf ?n ?i ?x ?s'] =>
      destruct (@pages_loop_fails call_failed wk pdf n
                  ltac:(intros e He; now destruct e) i x s') as [H|[out H]]
  end.
  - left. rewrite count_app. lia.
  - right. rewrite H. simpl. now exists out.
Qed.

Lemma pages_loop_trace wk pdf todo :
  forall i text s out,
    res (pages_loop E wk pdf todo i text s) = Ok out ->
    exists runs,
      length runs = todo
      /\ evs (pages_loop E wk pdf todo i text s) = Spec.pages_events wk pdf i runs
      /\ out = text ++ Spec.pages i (map Spec.pr_text runs).
Proof.
  induction todo as [|todo IH]; intros i text s out H.
  - simpl in *. injection H as <-. exists []. simpl.
    now rewrite string_app_nil_r.
  - simpl in H |- *.
    unfold getPage, getViewport, createCanvas, getContext, setCanvasHeight,
      setCanvasWidth, render, toDataURL, recognize in *.
    apply bind_call_ok in H as (page & w1 & _ & H & ->).
    apply bind_call_ok in H as (vp & w2 & _ & H & ->).
    apply bind_call_total_ok in H as (canvas & w3 & _ & H & ->).
    apply bind_call_total_ok in H as (ctx & w4 & _ & H & ->).
    apply bind_call_unit_ok in H as (H & ->).
    apply bind_call_unit_ok in H as (H & ->).
    apply bind_call_ok in H as ([] & w5 & _ & H & ->).
    apply bind_call_ok in H as (url & w6 & _ & H & ->).
    apply bind_worker_call_ok in H as (logs & pageText & w7 & _ & H & ->).
    match type of H with
    | res (pages_loop _ _ _ _ _ _ ?s') = _ => generalize dependent s'
    end.
    intros s' H.
    apply IH in H as (runs & Hlen & -> & ->).
    exists (Spec.mkPageRun page vp canvas ctx url (logged logs) pageText
              :: runs).
    split; [simpl; now rewrite Hlen|]. split.
    + simpl. reflexivity.
    + simpl. now rewrite string_app_assoc.
Qed.

Lemma processPDF_trace wk f (s : St world) text :
  res (processPDF E wk f s) = Ok text ->
  exists url pdf runs,
    length runs = numPages pdf
    /\ evs (processPDF E wk f s)
       = (EvCreateObjectURL f url :: EvGetDocument url (Ok pdf)
          :: Spec.pages_events wk pdf 1 runs ++ [EvRevokeObjectURL url])%list
    /\ text = Spec.pages 1 (map Spec.pr_text runs).
Proof.
  intros H. unfold processPDF, createObjectURL, getDocument, revokeObjectURL
    in *.
  apply bind_call_total_ok in H as (url & w1 & _ & H & ->).
  apply bind_call_ok in H as (pdf & w2 & _ & H & ->).
  rewrite res_bind in H. rewrite evs_bind.
  match type of H with
  | context [pages_loop _ _ _ _ _ _ ?s'] => generalize dependent s'
  end.
  intros s' H.
  destruct (res (pages_loop E wk pdf (numPages pdf) 1 "" s')) as [out|]
    eqn:Hl; [|discriminate].
  apply pages_loop_trace in Hl as (runs & Hlen & -> & ->).
  simpl in H. injection H as <-.
  exists url, pdf, runs. split; [exact Hlen|]. split; reflexivity.
Qed.

(** C6. When no call of the document loader, the rasterizer or the
    recognizer fails, processPDF opens the document and then does, for the
    pages 1, 2, ..., numPages in this order and for no others, the steps
    of [Spec.page_events]: the page is fetched, its viewport taken at
    scale 1.5 (3/2), the page rendered at that viewport into a canvas of
    the viewport's size, and the PNG image of that canvas recognized.  It
    returns the concatenation in page order of the blocks
    "Page i:\ntext\n\n" of the recognized texts, one per page. *)
Theorem processPDF_pages_in_order wk f (s : St world) :
  let t := evs (processPDF E wk f s) in
  count call_failed t = 0 ->
  exists url pdf runs,
    length runs = numPages pdf
    /\ t = (EvCreateObjectURL f url :: EvGetDocument url (Ok pdf)
            :: Spec.pages_events wk pdf 1 runs ++ [EvRevokeObjectURL url])%list
    /\ res (processPDF E wk f s) = Ok (Spec.pages 1 (map Spec.pr_text runs))
    /\ page_requests t = seq 1 (numPages pdf)
    /\ viewport_scales t = repeat (3 # 2)%Q (numPages pdf)
    /\ recognized_texts t = map Spec.pr_text runs.
Proof.
  intros t Hnone. subst t.
  destruct (processPDF_fails wk f s) as [H|[text H]]; [lia|].
  pose proof H as H1. pose proof H as H2.
  apply processPDF_trace in H1 as (url & pdf & runs & Hlen & Hev & ->).
  apply processPDF_ok in H2 as (pdf' & texts & Htext & Hop & Hd).
  destruct Hd as [Hreq Hsc Hren Hfet Htx Hlen' Hnf].
  assert (pdf' = pdf) as ->.
  { rewrite Hev in Hop. unfold opened_documents in Hop. simpl in Hop.
    now injection Hop as <-. }
  exists url, pdf, runs. repeat split; try assumption.
  rewrite Htx. clear - Hev Htx.
  rewrite Hev in Htx. rewrite <- Htx.
  unfold recognized_texts. simpl. rewrite flat_map_app. simpl.
  rewrite app_nil_r. clear.
  generalize 1 as i. induction runs as [|r runs IH]; intros i;
    [reflexivity|].
  simpl. rewrite flat_map_app, flat_map_progress by (intro; reflexivity).
  simpl. now rewrite IH.
Qed.

(** C7. If, while a PDF file is processed, a rasterize or recognize step
    fails on some page, the processing of the file ends with an error, and
    the entry of the file in the report is "File: name\n\n", the fixed
    failure message and "\n\n": none of the texts recognized on earlier
    pages is in it.  The entries of the files that follow come after it. *)
Theorem page_failure_fails_document wk f rest acc (s : St world) :
  type f = "application/pdf" ->
  count step_failed (evs (dispatch E wk f s)) > 0 ->
  (exists e, res (dispatch E wk f s) = Err e)
  /\ res (files_loop E wk (f :: rest) acc s) =
     Ok (acc
         ++ "File: " ++ name f ++ Spec.LF ++ Spec.LF
         ++ "Error: Unable to process this file. It may be corrupted or in an unsupported format."
         ++ Spec.LF ++ Spec.LF
         ++ Spec.report
              (Spec.entries rest
                 (outcomes E wk rest (st (dispatch E wk f s))))).
Proof.
  intros Hty Hfail.
  assert (Herr : exists e, res (dispatch E wk f s) = Err e).
  { unfold dispatch in *. rewrite Hty in *. simpl in *.
    destruct (res (processPDF E wk f s)) as [text|e] eqn:Hr; [|now exists e].
    apply processPDF_ok in Hr as (pdf & texts & _ & _ & Hd).
    destruct Hd. lia. }
  split; [exact Herr|].
  destruct Herr as [e He].
  rewrite files_loop_report, report_spec. simpl. rewrite He. simpl.
  unfold Spec.file_entry, Spec.failure_message.
  now rewrite !string_app_assoc.
Qed.

(** C9. A file of type application/pdf is processed by processPDF; a file
    of any other type, in particular image/tiff, image/png and image/jpeg,
    by processImage, which does nothing but recognize the file itself and
    return what recognition delivers.  The choice reads the declared type
    only and leaves no event of its own. *)
Theorem dispatch_by_declared_type wk f :
  (type f = "application/pdf" -> dispatch E wk f = processPDF E wk f)
  /\ (type f <> "application/pdf" -> dispatch E wk f = processImage E wk f)
  /\ (In (type f) ["image/tiff"; "image/png"; "image/jpeg"] ->
      dispatch E wk f = processImage E wk f)
  /\ (forall s logs r w',
         ext_recognize E wk (ImgFile f) (st_world s) = (logs, r, w') ->
         res (processImage E wk f s) = r
         /\ evs (processImage E wk f s) =
            EvRecognize wk (ImgFile f) r :: map EvSetProgress (logged logs)).
Proof.
  unfold dispatch. repeat split.
  - intros ->. reflexivity.
  - intros Hne. destruct (String.eqb_spec (type f) "application/pdf");
      [contradiction | reflexivity].
  - intros Hin. destruct (String.eqb_spec (type f) "application/pdf") as [Heq|];
      [|reflexivity].
    rewrite Heq in Hin. simpl in Hin.
    repeat destruct Hin as [Hin|Hin]; try discriminate; contradiction.
  - unfold processImage, recognize. rewrite res_bind.
    rewrite (worker_call_run _ _ _ H). simpl. now destruct r.
  - unfold processImage, recognize. rewrite evs_bind.
    rewrite (worker_call_run _ _ _ H). simpl.
    destruct r; simpl; now rewrite app_nil_r.
Qed.

(** C3. The loop over the queue never throws: it returns the accumulated
    text followed by the specified report, one entry per file, where the
    body of a file whose processing threw is the fixed failure message
    and the bodies of the other files are their own texts.  When the
    processing of the file at the head of the queue throws, the error is
    logged, the text "File: name\n\nError: Unable to process this file.
    It may be corrupted or in an unsupported format.\n\n" is appended, and
    the loop goes on with the rest of the queue, whose entries follow. *)
Theorem file_failure_is_isolated wk fs acc (s : St world) :
  res (files_loop E wk fs acc s) =
    Ok (acc ++ Spec.report (Spec.entries fs (outcomes E wk fs s)))
  /\ length (outcomes E wk fs s) = length fs
  /\ (forall f rest e s1 t1,
         fs = f :: rest ->
         dispatch E wk f s = mkOut (Err e) s1 t1 ->
         let failed :=
           acc ++ "File: " ++ name f ++ Spec.LF ++ Spec.LF
           ++ "Error: Unable to process this file. It may be corrupted or in an unsupported format."
           ++ Spec.LF ++ Spec.LF in
         files_loop E wk fs acc s =
           (let o := files_loop E wk rest failed s1 in
            mkOut (res o) (st o)
              (t1 ++ EvConsoleError
                       ("Error processing file " ++ name f ++ ":") e
                  :: evs o)%list)
         /\ res (files_loop E wk fs acc s) =
            Ok (failed
                ++ Spec.report (Spec.entries rest (outcomes E wk rest s1)))).
Proof.
  split; [now rewrite files_loop_report, report_spec|].
  split; [apply outcomes_length|].
  intros f rest e s1 t1 -> Hd failed. subst failed. split.
  - now apply files_loop_failure.
  - rewrite files_loop_report, report_spec. simpl. rewrite Hd. simpl.
    unfold Spec.file_entry, Spec.failure_message.
    repeat (rewrite !string_app_assoc; simpl). reflexivity.
Qed.

(** C1. The logger on the message {status: 'recognizing text',
    progress: 0.5}: the fraction scaled to 0-100 is 50, but the value
    shown is 0, because parseInt reads "0.5" up to the point. *)
Theorem logger_drops_the_fraction (s : St world) :
  let o := logger (mkLog "recognizing text" Demo.half) s in
  (JS.value Demo.half * 100 == 50)%Q
  /\ evs o = [EvSetProgress (JS.Int 0)]
  /\ progress (st_ui (st o)) = JS.Int 0
  /\ ~ (inject_Z 0 == JS.value Demo.half * 100)%Q.
Proof.
  intros o. subst o. split; [reflexivity|].
  split; [reflexivity|]. split; [reflexivity|].
  intros H. vm_compute in H. discriminate H.
Qed.

(** X7. The value shown is 0 for every fraction from 0.000001 up to, but
    not including, 1 (and 100 at 1, [shown_progress_one]). *)
Lemma shown_progress_below_one d ds n :
  (-6 < n <= 0)%Z -> shown_progress (JS.NPos d ds n) = JS.Int 0.
Proof.
  intros Hn. unfold shown_progress, JS.Number_toString.
  destruct (Z.leb_spec (Z.of_nat (length (d :: ds))) n) as [Hk|_];
    [simpl length in Hk; lia|].
  destruct (Z.ltb_spec 0 n) as [H0|_]; [lia|].
  destruct (Z.ltb_spec (-6) n) as [_|H6]; [|lia].
  destruct (Z.leb_spec n 0) as [_|H0]; [|lia].
  reflexivity.
Qed.

Lemma shown_progress_one : shown_progress Demo.one = JS.Int 100.
Proof. reflexivity. Qed.
End File_properties.

(** ** The theorems on the concrete environment *)

Ltac find_in := simpl; repeat (first [left; reflexivity | right]).

Lemma worker_released_exactly_once_witness :
  (count is_terminate (evs (processFiles Demo.env Demo.mixed)) = 1
   /\ exists pre rt,
        lifecycle (evs (processFiles Demo.env Demo.mixed))
        = (pre ++ closing 1 rt)%list
        /\ count is_terminate pre = 0)
  /\ (count is_terminate (evs (processFiles Demo.env Demo.aborted)) = 1
      /\ exists pre rt,
           lifecycle (evs (processFiles Demo.env Demo.aborted))
           = (pre ++ closing 1 rt)%list
           /\ count is_terminate pre = 0)
  /\ (count is_terminate (evs (processFiles Demo.env Demo.clean)) = 1
      /\ exists pre rt,
           lifecycle (evs (processFiles Demo.env Demo.clean))
           = (pre ++ closing 1 rt)%list
           /\ count is_terminate pre = 0).
Proof.
  split; [|split].
  - apply (@worker_released_exactly_once _ Demo.env Demo.mixed 1).
    vm_compute. find_in.
  - apply (@worker_released_exactly_once _ Demo.env Demo.aborted 1).
    vm_compute. find_in.
  - apply (@worker_released_exactly_once _ Demo.env Demo.clean 1).
    vm_compute. find_in.
Defined.

Lemma engine_failure_aborts_run_witness :
  count is_file_work (evs (processFiles Demo.env Demo.aborted)) = 0
  /\ fatal_error (processFiles Demo.env Demo.aborted).
Proof.
  apply (proj1 (@engine_failure_aborts_run _ Demo.env Demo.aborted)
           1 "deu" "unknown language").
  left. vm_compute. find_in.
Defined.

Lemma report_follows_queue_order_witness :
  exists outs,
    length outs = 3
    /\ (exists s3,
           outs = outcomes Demo.env 1 [Demo.png; Demo.torn; Demo.doc] s3)
    /\ map fst (Spec.entries [Demo.png; Demo.torn; Demo.doc] outs)
       = ["good.png"; "torn.pdf"; "doc.pdf"]
    /\ results (st_ui (st (processFiles Demo.env Demo.mixed)))
       = Spec.report (Spec.entries [Demo.png; Demo.torn; Demo.doc] outs)
    /\ In (EvSetResults
             (Spec.report (Spec.entries [Demo.png; Demo.torn; Demo.doc] outs)))
          (evs (processFiles Demo.env Demo.mixed)).
Proof.
  apply (@report_follows_queue_order _ Demo.env Demo.mixed 1).
  vm_compute. find_in.
Defined.

Lemma one_engine_initialized_once_witness :
  count is_initialize (evs (processFiles Demo.env Demo.mixed)) = 1.
Proof.
  apply (proj1 (proj2 (proj2
           (@one_engine_initialized_once _ Demo.env Demo.mixed)))
           1 (Ok tt)).
  - vm_compute. find_in.
  - reflexivity.
Defined.

Lemma empty_queue_run_witness :
  exists rt,
    lifecycle (evs (processFiles Demo.env Demo.empty)) =
      ([EvSetIsProcessing true; EvSetResults ""; EvSetError None;
        EvCreateWorker (Ok 1); EvLoadLanguage 1 "eng" (Ok tt);
        EvInitialize 1 "eng" (Ok tt); EvSetResults ""]
       ++ closing 1 rt)%list
    /\ count is_file_work (evs (processFiles Demo.env Demo.empty)) = 0
    /\ error (st_ui (st (processFiles Demo.env Demo.empty))) = None
    /\ results (st_ui (st (processFiles Demo.env Demo.empty))) = "".
Proof.
  apply (@empty_queue_run _ Demo.env Demo.empty 1 [] Demo.w0
           [mkLog "loading language traineddata" Demo.one] Demo.w0
           [mkLog "initializing api" Demo.one] Demo.w0);
    reflexivity.
Defined.

Lemma processPDF_pages_in_order_witness :
  exists url pdf runs,
    length runs = numPages pdf
    /\ evs (processPDF Demo.env 1 Demo.doc Demo.mixed)
       = (EvCreateObjectURL Demo.doc url :: EvGetDocument url (Ok pdf)
          :: Spec.pages_events 1 pdf 1 runs ++ [EvRevokeObjectURL url])%list
    /\ res (processPDF Demo.env 1 Demo.doc Demo.mixed)
       = Ok (Spec.pages 1 (map Spec.pr_text runs))
    /\ page_requests (evs (processPDF Demo.env 1 Demo.doc Demo.mixed))
       = seq 1 (numPages pdf)
    /\ viewport_scales (evs (processPDF Demo.env 1 Demo.doc Demo.mixed))
       = repeat (3 # 2)%Q (numPages pdf)
    /\ recognized_texts (evs (processPDF Demo.env 1 Demo.doc Demo.mixed))
       = map Spec.pr_text runs.
Proof.
  apply (@processPDF_pages_in_order _ Demo.env 1 Demo.doc Demo.mixed).
  vm_compute. reflexivity.
Defined.

Lemma page_failure_fails_document_witness :
  (exists e, res (dispatch Demo.env 1 Demo.torn Demo.mixed) = Err e)
  /\ res (files_loop Demo.env 1 [Demo.torn; Demo.doc] "" Demo.mixed) =
     Ok (""
         ++ "File: " ++ "torn.pdf" ++ Spec.LF ++ Spec.LF
         ++ "Error: Unable to process this file. It may be corrupted or in an unsupported format."
         ++ Spec.LF ++ Spec.LF
         ++ Spec.report
              (Spec.entries [Demo.doc]
                 (outcomes Demo.env 1 [Demo.doc]
                    (st (dispatch Demo.env 1 Demo.torn Demo.mixed))))).
Proof.
  apply (@page_failure_fails_document _ Demo.env 1 Demo.torn [Demo.doc] ""
           Demo.mixed).
  - reflexivity.
  - vm_compute. lia.
Defined.

Lemma dispatch_by_declared_type_witness :
  dispatch Demo.env 1 Demo.png = processImage Demo.env 1 Demo.png.
Proof.
  apply (proj1 (proj2 (proj2
           (@dispatch_by_declared_type _ Demo.env 1 Demo.png)))).
  find_in.
Defined.

Lemma file_failure_is_isolated_witness :
  let failed :=
    "" ++ "File: " ++ "torn.pdf" ++ Spec.LF ++ Spec.LF
    ++ "Error: Unable to process this file. It may be corrupted or in an unsupported format."
    ++ Spec.LF ++ Spec.LF in
  files_loop Demo.env 1 [Demo.torn; Demo.png] "" Demo.mixed =
    (let o :=
       files_loop Demo.env 1 [Demo.png] failed
         (st (dispatch Demo.env 1 Demo.torn Demo.mixed)) in
     mkOut (res o) (st o)
       (evs (dispatch Demo.env 1 Demo.torn Demo.mixed)
        ++ EvConsoleError "Error processing file torn.pdf:" "page missing"
           :: evs o)%list)
  /\ res (files_loop Demo.env 1 [Demo.torn; Demo.png] "" Demo.mixed) =
     Ok (failed
         ++ Spec.report
              (Spec.entries [Demo.png]
                 (outcomes Demo.env 1 [Demo.png]
                    (st (dispatch Demo.env 1 Demo.torn Demo.mixed))))).
Proof.
  apply (proj2 (proj2
           (@file_failure_is_isolated _ Demo.env 1 [Demo.torn; Demo.png] ""
              Demo.mixed))
           Demo.torn [Demo.png] "page missing").
  - reflexivity.
  - vm_compute. reflexivity.
Defined.

(** C4. A run in which createWorker fails: the call of processFiles
    throws, and the run ends in neither of the two ways - no report is
    delivered (setResults is called once, for the reset), no error message
    is recorded, [error] is null - with [isProcessing] left true and no
    terminate call.  The two outcomes are therefore not exhaustive. *)
Theorem createWorker_failure_leaves_no_outcome :
  let o := processFiles Demo.broken Demo.mixed in
  res o = Err "cannot load the worker script"
  /\ ~ completed_report o
  /\ ~ fatal_error o
  /\ count is_setResults (evs o) = 1
  /\ count is_error_message (evs o) = 0
  /\ error (st_ui (st o)) = None
  /\ isProcessing (st_ui (st o)) = true
  /\ count is_terminate (evs o) = 0.
Proof.
  intros o.
  destruct (@processFiles_without_worker _ Demo.broken Demo.mixed []
              "cannot load the worker script" Demo.w0 eq_refl)
    as (Hres & _ & Hp & Hnc & Hnf).
  fold o in Hres, Hp, Hnc, Hnf.
  split; [exact Hres|]. split; [exact Hnc|]. split; [exact Hnf|].
  split; [reflexivity|]. split; [reflexivity|]. split; [reflexivity|].
  split; [exact Hp | reflexivity].
Qed.

(** ** Further facts about the combinators *)

Lemma flat_map_none {B} (f : Event -> list B) (p : Event -> bool)
    (t : list Event) :
  (forall e, p e = true -> f e = []) ->
  Forall (fun e => p e = true) t -> flat_map f t = [].
Proof.
  intros Hf. induction 1 as [|e t He _ IH]; simpl; [reflexivity|].
  now rewrite (Hf e He), IH.
Qed.

Lemma count_emitted (q p : Event -> bool) (t : list Event) :
  (forall e, p e = true -> q e = false) ->
  Forall (fun e => p e = true) t -> count q t = 0.
Proof.
  intros Hq Ht. apply count_none.
  eapply Forall_impl; [|exact Ht]. intros e He. now apply Hq.
Qed.

Section Emits.

Variable world : Type.
Variable E : Env world.
Variable p : Event -> bool.

Lemma emits_ret {A} (a : A) : emits p (ret (world:=world) a).
Proof. intros s; constructor. Qed.

Lemma emits_bind {A B} (m : M world A) (k : A -> M world B) :
  emits p m -> (forall a, emits p (k a)) -> emits p (bind m k).
Proof.
  intros Hm Hk s. rewrite evs_bind. apply Forall_app. split; [apply Hm|].
  destruct (res (m s)); [apply Hk | constructor].
Qed.

Lemma emits_try_catch {A} (m : M world A) (h : exn -> M world A) :
  emits p m -> (forall e, emits p (h e)) -> emits p (try_catch m h).
Proof.
  intros Hm Hh s. rewrite evs_try_catch. apply Forall_app.
  split; [apply Hm|].
  destruct (res (m s)); [constructor | apply Hh].
Qed.

Lemma emits_call {A} (op : world -> result A * world) ev :
  (forall r, p (ev r) = true) -> emits p (call op ev).
Proof.
  intros Hev [w u]. unfold call; simpl.
  destruct (op w) as [r w']; simpl. repeat constructor; apply Hev.
Qed.

Lemma emits_call_total {A} (op : world -> A * world) ev :
  (forall a, p (ev a) = true) -> emits p (call_total op ev).
Proof.
  intros Hev [w u]. unfold call_total; simpl.
  destruct (op w) as [a w']; simpl. repeat constructor; apply Hev.
Qed.

Lemma emits_call_unit (op : world -> world) ev :
  p ev = true -> emits p (call_unit op ev).
Proof. intros Hev [w u]. repeat constructor; apply Hev. Qed.

Lemma emits_worker_call {A} (op : world -> list LogMsg * result A * world)
    ev :
  (forall r, p (ev r) = true) -> (forall v, p (EvSetProgress v) = true) ->
  emits p (worker_call op ev).
Proof.
  intros Hev Hp s. destruct (evs_worker_call op ev s) as [vs ->].
  constructor; [apply Hev|]. apply Forall_forall. intros e He.
  apply in_map_iff in He. destruct He as (v & <- & _). apply Hp.
Qed.

End Emits.

Section Emitted.

Variable world : Type.
Variable E : Env world.

Ltac emits_step :=
  first
    [ apply emits_ret
    | apply emits_call; intro; reflexivity
    | apply emits_call_total; intro; reflexivity
    | apply emits_call_unit; reflexivity
    | apply emits_worker_call; intro; reflexivity
    | apply emits_bind; [|intro] ].

Lemma emits_pages_loop wk pdf todo :
  forall i text, emits is_page_event (pages_loop E wk pdf todo i text).
Proof.
  induction todo as [|todo IH]; intros i text; simpl.
  - apply emits_ret.
  - unfold getPage, getViewport, createCanvas, getContext, setCanvasHeight,
      setCanvasWidth, render, toDataURL, recognize.
    repeat (first [apply IH | emits_step]).
Qed.

Lemma emits_dispatch wk f : emits is_dispatch_event (dispatch E wk f).
Proof.
  unfold dispatch. destruct (type f =? "application/pdf").
  - unfold processPDF, createObjectURL, getDocument, revokeObjectURL.
    repeat emits_step.
    intros s. eapply Forall_impl; [|apply emits_pages_loop].
    intros e He. now destruct e.
  - unfold processImage, recognize. repeat emits_step.
Qed.

End Emitted.

Section Loops.

Variable world : Type.
Variable E : Env world.

(** *** Running a [bind] whose first step is a call *)

Lemma bind_call_run {A B} (op : world -> result A * world) ev
    (k : A -> M world B) (s : St world) :
  bind (call op ev) k s =
  match op (st_world s) with
  | (Ok a, w') =>
      let o := k a (mkSt w' (st_ui s)) in
      mkOut (res o) (st o) (ev (Ok a) :: evs o)
  | (Err e, w') => mkOut (Err e) (mkSt w' (st_ui s)) [ev (Err e)]
  end.
Proof.
  unfold bind, call. destruct (op (st_world s)) as [[a|e] w']; simpl.
  - now destruct (k a _).
  - reflexivity.
Qed.

Lemma bind_call_total_run {A B} (op : world -> A * world) ev
    (k : A -> M world B) (s : St world) :
  bind (call_total op ev) k s =
  match op (st_world s) with
  | (a, w') =>
      let o := k a (mkSt w' (st_ui s)) in
      mkOut (res o) (st o) (ev a :: evs o)
  end.
Proof.
  unfold bind, call_total. destruct (op (st_world s)) as [a w']; simpl.
  now destruct (k a _).
Qed.

Lemma bind_call_unit_run {B} (op : world -> world) ev
    (k : unit -> M world B) (s : St world) :
  bind (call_unit op ev) k s =
  let o := k tt (mkSt (op (st_world s)) (st_ui s)) in
  mkOut (res o) (st o) (ev :: evs o).
Proof. unfold bind, call_unit. simpl. now destruct (k tt _). Qed.


(** *** The page loop stops at the first failure *)





(** X2. processPDF makes one object URL for the file.  It revokes that URL
    when it returns; when it throws, the URL is not revoked. *)
Theorem processPDF_object_url wk f (s : St world) :
  let t := evs (processPDF E wk f s) in
  exists u,
    created_urls t = [u]
    /\ In (EvCreateObjectURL f u) t
    /\ revoked_urls t =
       match res (processPDF E wk f s) with
       | Ok _ => [u]
       | Err _ => []
       end.
Proof.
  intros t. subst t.
  unfold processPDF, createObjectURL, getDocument, revokeObjectURL.
  rewrite bind_call_total_run.
  destruct (ext_createObjectURL E f (st_world s)) as [url w1].
  cbv zeta. simpl res. simpl evs. exists url.
  rewrite bind_call_run.
  destruct (ext_getDocument E url _) as [[pdf|e1] w2].
  - cbv zeta. simpl res. simpl evs.
    rewrite res_bind, evs_bind.
    match goal with
    | |- context [pages_loop _ _ _ _ _ _ ?s'] => generalize s'
    end.
    intros s'.
    pose proof (emits_pages_loop E wk pdf (numPages pdf) 1 "" s') as Hem.
    assert (Hc : created_urls (evs (pages_loop E wk pdf (numPages pdf) 1 "" s'))
                 = [])
      by (apply (flat_map_none _ is_page_event); [|exact Hem];
          intros x Hx; now destruct x).
    assert (Hr : revoked_urls (evs (pages_loop E wk pdf (numPages pdf) 1 "" s'))
                 = [])
      by (apply (flat_map_none _ is_page_event); [|exact Hem];
          intros x Hx; now destruct x).
    unfold created_urls, revoked_urls in *.
    destruct (res (pages_loop E wk pdf (numPages pdf) 1 "" s')) as [out|e2].
    + rewrite bind_call_unit_run. simpl.
      rewrite !flat_map_app, Hc, Hr. simpl. auto.
    + simpl. rewrite !flat_map_app, Hc, Hr. simpl. auto.
  - simpl. auto.
Qed.

End Loops.

Section Queue.

Variable world : Type.
Variable E : Env world.

Lemma dispatch_logs_nothing wk f (s : St world) :
  console_errors (evs (dispatch E wk f s)) = [].
Proof.
  apply (flat_map_none _ is_dispatch_event); [|apply emits_dispatch].
  intros e He. now destruct e.
Qed.

(** X3. The file loop calls console.error once for each file whose processing
    threw, in queue order, with the name of the file and the error thrown,
    and for no other reason. *)
Theorem files_loop_logs_each_failure wk fs :
  forall acc (s : St world),
    console_errors (evs (files_loop E wk fs acc s)) =
    failure_log fs (outcomes E wk fs s).
Proof.
  induction fs as [|f fs IH]; intros acc s; [reflexivity|].
  destruct (dispatch E wk f s) as [[text|e] s1 t1] eqn:Hd.
  - erewrite files_loop_success by exact Hd. simpl. rewrite Hd. simpl.
    unfold console_errors in *. rewrite flat_map_app, IH.
    pose proof (dispatch_logs_nothing wk f s) as Hn.
    unfold console_errors in Hn. rewrite Hd in Hn. simpl in Hn.
    now rewrite Hn.
  - erewrite files_loop_failure by exact Hd. simpl. rewrite Hd. simpl.
    unfold console_errors in *. rewrite flat_map_app. simpl. rewrite IH.
    pose proof (dispatch_logs_nothing wk f s) as Hn.
    unfold console_errors in Hn. rewrite Hd in Hn. simpl in Hn.
    now rewrite Hn.
Qed.

(** X4. Processing a queue is processing its front part and then, from the
    state and with the text this leaves, the rest. *)
Theorem files_loop_app wk fs1 fs2 :
  forall acc (s : St world),
    exists acc1,
      res (files_loop E wk fs1 acc s) = Ok acc1
      /\ files_loop E wk (fs1 ++ fs2) acc s =
         let o1 := files_loop E wk fs1 acc s in
         let o2 := files_loop E wk fs2 acc1 (st o1) in
         mkOut (res o2) (st o2) (evs o1 ++ evs o2)%list.
Proof.
  induction fs1 as [|f fs1 IH]; intros acc s.
  - exists acc. split; [reflexivity|]. simpl.
    now destruct (files_loop E wk fs2 acc s).
  - destruct (dispatch E wk f s) as [[text|e] s1 t1] eqn:Hd.
    + destruct (IH (acc ++ file_block (name f) text) s1) as (acc1 & Hr & Heq).
      exists acc1.
      change ((f :: fs1) ++ fs2)%list with (f :: (fs1 ++ fs2))%list.
      rewrite (@files_loop_success _ E wk f (fs1 ++ fs2) acc s text s1 t1 Hd),
        (@files_loop_success _ E wk f fs1 acc s text s1 t1 Hd).
      cbv zeta in *. simpl.
      split; [exact Hr|]. rewrite Heq. simpl. now rewrite app_assoc.
    + destruct (IH (acc ++ file_block (name f) fail_body) s1)
        as (acc1 & Hr & Heq).
      exists acc1.
      change ((f :: fs1) ++ fs2)%list with (f :: (fs1 ++ fs2))%list.
      rewrite (@files_loop_failure _ E wk f (fs1 ++ fs2) acc s e s1 t1 Hd),
        (@files_loop_failure _ E wk f fs1 acc s e s1 t1 Hd).
      cbv zeta in *. simpl.
      split; [exact Hr|]. rewrite Heq. simpl.
      now rewrite <- app_assoc.
Qed.

End Queue.

Section Settling.

Variable world : Type.
Variable E : Env world.

Lemma res_try_finally {A} (m : M world A) f s :
  res (try_finally m f s) =
  match res (f (st (m s))) with
  | Ok _ => res (m s)
  | Err e => Err e
  end.
Proof.
  unfold try_finally. destruct (m s) as [r s1 t1]; simpl.
  now destruct (f s1) as [[[]|e] s2 t2].
Qed.

(** The inner try/catch of processFiles never throws. *)
Lemma guarded_res wk lang fs (s : St world) :
  res
    (try_catch
       (bind (loadLanguage E wk lang)
          (fun _ =>
             bind (initialize E wk lang)
               (fun _ =>
                  bind (files_loop E wk fs "")
                    (fun combinedResult => setResults combinedResult))))
       (fun error =>
          bind (console_error "OCR Error:" error)
            (fun _ => setError (Some fatal_message)))
       s) = Ok tt.
Proof.
  rewrite res_try_catch.
  destruct (res (bind (loadLanguage E wk lang) _ s)) as [[]|e]; reflexivity.
Qed.

Lemma processFiles_result (s : St world) l0 wk w1 :
  ext_createWorker E (st_world s) = (l0, Ok wk, w1) ->
  exists s2,
    res (processFiles E s) = res (terminate E wk s2)
    /\ In (EvTerminate wk (res (terminate E wk s2))) (evs (processFiles E s))
    /\ (res (terminate E wk s2) = Ok tt ->
        progress (st_ui (st (processFiles E s))) = JS.Int 0).
Proof.
  intros H0. unfold processFiles.
  repeat (rewrite res_bind, st_bind, evs_bind; simpl).
  unfold createWorker. erewrite worker_call_run by exact H0. simpl.
  rewrite res_bind, st_bind, evs_bind. simpl.
  rewrite res_try_finally, st_try_finally, evs_try_finally, guarded_res.
  match goal with
  | |- context [bind (terminate E wk) _ ?s2] => exists s2; generalize s2
  end.
  intros s2. rewrite res_bind, st_bind, evs_bind.
  destruct (evs_worker_call (ext_terminate E wk) (EvTerminate wk) s2)
    as [vs Hev].
  fold (terminate E wk) in Hev. rewrite Hev.
  destruct (res (terminate E wk s2)) as [[]|e]; simpl.
  - split; [reflexivity|]. split; [|reflexivity].
    simpl. rewrite !in_app_iff. simpl. auto 20.
  - split; [reflexivity|]. split; [|discriminate].
    simpl. rewrite !in_app_iff. simpl. auto 20.
Qed.


Lemma created_by_env (s : St world) wk :
  In (EvCreateWorker (Ok wk)) (evs (processFiles E s)) ->
  exists l0 w1, ext_createWorker E (st_world s) = (l0, Ok wk, w1).
Proof.
  intros Hin.
  destruct (ext_createWorker E (st_world s)) as [[l0 [wk'|e0]] w1] eqn:H0.
  - assert (Hin' : In (EvCreateWorker (Ok wk')) (evs (processFiles E s))).
    { unfold processFiles.
      repeat (rewrite evs_bind; simpl).
      unfold createWorker. erewrite worker_call_run by exact H0.
      simpl. auto 10. }
    destruct (@created_shape _ E s wk' Hin')
      as (r1 & r2 & rt & work & out & Hs & Hw & _).
    apply in_lifecycle in Hin; [|reflexivity]. rewrite Hs in Hin.
    assert (wk' = wk) as ->.
    { destruct r1 as [[]|e1], r2 as [[]|e2], rt as [[]|et];
        in_shape Hin Hw; reflexivity. }
    now exists l0, w1.
  - destruct (@processFiles_without_worker _ E s l0 e0 w1 H0) as (_ & Hl & _).
    apply in_lifecycle in Hin; [|reflexivity]. rewrite Hl in Hin.
    simpl in Hin.
    repeat (destruct Hin as [Hin|Hin]; try discriminate Hin).
    contradiction.
Qed.

Lemma expected_isProcessing lang wk r1 r2 work out rt (u : UI) :
  Forall (file_work wk) work ->
  isProcessing (replay (expected_lifecycle lang (Ok wk) r1 r2 work out rt) u)
  = match rt with Ok _ => false | Err _ => true end.
Proof.
  intros Hw.
  unfold expected_lifecycle, after_load, closing, fatal_events.
  destruct r1 as [[]|e1], r2 as [[]|e2], rt as [[]|et]; simpl;
    rewrite ?replay_app, ?(replay_file_work Hw); reflexivity.
Qed.

(** X5. With a worker, the call of processFiles ends as terminate ends, and in
    no other way: a failure of loadLanguage, of initialize or of a file
    never makes it throw.  When terminate has succeeded, [isProcessing] is
    false and [progress] is 0 at the end; when terminate fails, the call
    throws and [isProcessing] stays true. *)
Theorem processFiles_settles (s : St world) (wk : Worker) :
  let o := processFiles E s in
  In (EvCreateWorker (Ok wk)) (evs o) ->
  exists rt,
    In (EvTerminate wk rt) (evs o)
    /\ res o = rt
    /\ match rt with
       | Ok _ =>
           isProcessing (st_ui (st o)) = false
           /\ progress (st_ui (st o)) = JS.Int 0
       | Err _ => isProcessing (st_ui (st o)) = true
       end.
Proof.
  intros o Hin. subst o.
  destruct (@created_by_env s wk Hin) as (l0 & w1 & H0).
  destruct (@processFiles_result s l0 wk w1 H0) as (s2 & Hres & Hterm & Hprog).
  exists (res (terminate E wk s2)). split; [exact Hterm|].
  split; [exact Hres|].
  destruct (@created_shape _ E s wk Hin)
    as (r1 & r2 & rt & work & out & Hs & Hw & _).
  destruct (processFiles_hooks E s) as (_ & Hp & _).
  rewrite Hs, (@expected_isProcessing (selectedLanguage (st_ui s)) wk r1 r2 work out rt
               (st_ui s) Hw) in Hp.
  assert (Hrt : res (terminate E wk s2) = rt).
  { apply in_lifecycle in Hterm; [|reflexivity]. rewrite Hs in Hterm.
    destruct r1 as [[]|e1], r2 as [[]|e2], rt as [[]|et];
      in_shape Hterm Hw; congruence. }
  rewrite Hrt in *.
  destruct rt as [[]|et]; [split|]; auto.
Qed.

End Settling.

(** ** The run keeps [isProcessing] set *)

Lemma prefix_before_tail (p : Event -> bool) x (mid tail l1 l2 : list Event)
    e :
  (l1 ++ e :: l2 = x :: mid ++ tail)%list ->
  p x = true -> p e = false ->
  Forall (fun y => p y = false) mid ->
  Forall (fun y => p y = true) tail ->
  exists l1', l1 = x :: l1' /\ Forall (fun y => p y = false) l1'.
Proof.
  intros Heq Hx He Hmid Htail.
  destruct l1 as [|a l1]; simpl in Heq.
  - injection Heq as -> _. congruence.
  - injection Heq as -> Heq. exists l1. split; [reflexivity|].
    revert l1 Heq. induction Hmid as [|m mid Hm _ IH]; intros l1 Heq.
    + simpl in Heq. rewrite Forall_forall in Htail.
      assert (Hin : In e tail) by (rewrite <- Heq; apply in_elt).
      apply Htail in Hin. congruence.
    + destruct l1 as [|b l1]; [constructor|].
      simpl in Heq. injection Heq as -> Heq.
      constructor; [exact Hm | now apply IH].
Qed.

Lemma replay_keeps_isProcessing (t : list Event) :
  Forall (fun y => is_setIsProcessing y = false) t ->
  forall u, isProcessing (replay t u) = isProcessing u.
Proof.
  induction 1 as [|e t He _ IH]; intros u; simpl; [reflexivity|].
  rewrite IH. now destruct e.
Qed.

Lemma expected_split lang r0 r1 r2 work out rt :
  (forall wk, r0 = Ok wk -> Forall (file_work wk) work) ->
  exists mid tail,
    expected_lifecycle lang r0 r1 r2 work out rt
    = (EvSetIsProcessing true :: mid ++ tail)%list
    /\ Forall (fun y => is_setIsProcessing y = false) mid
    /\ Forall (fun y => is_setIsProcessing y = true) tail.
Proof.
  intros Hw. unfold expected_lifecycle, after_load, closing, fatal_events.
  destruct r0 as [wk|e0].
  - assert (Hwork : Forall (fun y => is_setIsProcessing y = false) work).
    { eapply Forall_impl; [|exact (Hw wk eq_refl)].
      intros y [Hy _]. now destruct y. }
    exists ([EvSetResults ""; EvSetError None; EvCreateWorker (Ok wk)]
            ++ after_load wk lang r1 r2 work out ++ [EvTerminate wk rt])%list,
      (match rt with Ok _ => [EvSetIsProcessing false] | Err _ => [] end).
    split; [|split].
    + simpl. do 4 f_equal. unfold after_load, fatal_events.
      rewrite <- !app_assoc. reflexivity.
    + unfold after_load, fatal_events.
      destruct r1 as [[]|e1], r2 as [[]|e2];
        repeat (first [apply Forall_app; split | constructor]);
        try reflexivity; exact Hwork.
    + destruct rt; repeat constructor.
  - exists [EvSetResults ""; EvSetError None; EvCreateWorker (Err e0)], [].
    split; [reflexivity|]. split; repeat constructor.
Qed.

Section Busy.

Variable world : Type.
Variable E : Env world.

(** X6. Every call of a collaborator that a run makes - createWorker, the
    worker's calls, the work on the files - is made while [isProcessing]
    is true: the button that starts a run is disabled from before the
    first call until after the last one. *)
Theorem calls_while_processing (s : St world) pre e post :
  evs (processFiles E s) = (pre ++ e :: post)%list ->
  is_call e = true ->
  isProcessing (replay pre (st_ui s)) = true.
Proof.
  intros Heq He.
  assert (Hl : is_lifecycle e = true) by now destruct e.
  assert (Hp : is_setIsProcessing e = false) by now destruct e.
  destruct (processFiles_lifecycle E s)
    as (r0 & r1 & r2 & rt & work & out & Hs & Hw).
  rewrite Heq, lifecycle_app, lifecycle_cons, Hl in Hs.
  destruct (@expected_split (selectedLanguage (st_ui s)) r0 r1 r2 work out rt)
    as (mid & tail & Hexp & Hmid & Htail).
  { intros wk Hr. now apply Hw. }
  rewrite Hexp in Hs.
  destruct (@prefix_before_tail is_setIsProcessing _ mid tail _ _ e Hs)
    as (pre' & Hpre & Hnone); auto.
  destruct (replay_lifecycle pre (ui_frame_refl (st_ui s))) as (_ & Hi & _).
  rewrite Hi, Hpre. simpl.
  now rewrite (replay_keeps_isProcessing Hnone).
Qed.

End Busy.

(** ** What the logger shows *)

(** X8. Below 0.000001 the decimal string of a fraction is in exponent
    notation, "d.ddde-k" or "de-k"; parseInt reads its leading digit, and
    the value shown is that digit times 100. *)
Theorem shown_progress_tiny d ds n :
  1 <= d <= 9 -> (n <= -6)%Z ->
  shown_progress (JS.NPos d ds n) = JS.Int (Z.of_nat d * 100).
Proof.
  intros Hd Hn. unfold shown_progress, JS.Number_toString.
  destruct (Z.leb_spec (Z.of_nat (length (d :: ds))) n) as [Hk|_];
    [simpl length in Hk; lia|].
  destruct (Z.ltb_spec 0 n) as [H0|_]; [lia|].
  destruct (Z.ltb_spec (-6) n) as [H6|_]; [lia|].
  simpl andb. cbv iota.
  destruct d as [|[|[|[|[|[|[|[|[|[|d]]]]]]]]]]; try lia;
    destruct ds; reflexivity.
Qed.

Lemma last_default {A} (a : A) (l : list A) (d d' : A) :
  last (a :: l) d = last (a :: l) d'.
Proof.
  revert a. induction l as [|b l IH]; intros a; [reflexivity|].
  change (last (b :: l) d = last (b :: l) d'). apply IH.
Qed.

Lemma progress_after_last (vs : list JS.Num) :
  forall u, progress (progress_after vs u) = last vs (progress u).
Proof.
  induction vs as [|v vs IH]; intros u; [reflexivity|].
  change (progress (progress_after vs (with_progress v u))
          = last (v :: vs) (progress u)).
  rewrite IH. destruct vs as [|n vs]; [reflexivity|].
  change (last (n :: vs) v = last (n :: vs) (progress u)).
  apply last_default.
Qed.

Section Logger.

Variable world : Type.
Variable E : Env world.

(** X9. After a recognition, [progress] is what the logger made of the last
    'recognizing text' message sent during it, whatever was shown before
    and whichever file or page was recognized; if no such message was
    sent, [progress] is left as it was. *)
Theorem recognize_shows_last_message wk img (s : St world) logs r w' :
  ext_recognize E wk img (st_world s) = (logs, r, w') ->
  progress (st_ui (st (recognize E wk img s)))
  = last
      (map (fun m =>
              JS.times100 (JS.parseInt (JS.Number_toString (progress_of m))))
         (filter (fun m => status m =? "recognizing text") logs))
      (progress (st_ui s)).
Proof.
  intros H. unfold recognize.
  rewrite (@worker_call_run _ _ (ext_recognize E wk img) (EvRecognize wk img)
             s logs r w' H).
  simpl. rewrite progress_after_last. f_equal.
  clear. induction logs as [|m logs IH]; [reflexivity|].
  simpl. destruct (status m =? "recognizing text"); simpl; now rewrite IH.
Qed.

End Logger.

(** ** The report of an initialized run *)

Section Reports.

Variable world : Type.
Variable E : Env world.


Lemma report_starts_with_first_file f fs r rs :
  exists body, report (f :: fs) (r :: rs) = "File: " ++ name f ++ body.
Proof.
  simpl. unfold file_block.
  eexists. rewrite !string_app_assoc. reflexivity.
Qed.

(** X10. After a run that had a worker, on a queue that is not empty, the page
    shows either the error banner with the fixed message and no results
    panel, or no error banner and the results panel, whose text starts
    with the block of the first file of the queue. *)
Theorem view_after_run (s : St world) wk f fs :
  let u := st_ui (st (processFiles E s)) in
  In (EvCreateWorker (Ok wk)) (evs (processFiles E s)) ->
  files (st_ui s) = f :: fs ->
  (error_banner (view u)
   = Some "An error occurred during OCR processing. Please try again with different files."
   /\ results_panel (view u) = None)
  \/ (error_banner (view u) = None
      /\ results_panel (view u) = Some (results u)
      /\ exists body, results u = "File: " ++ name f ++ body).
Proof.
  intros u Hin Hfs. subst u.
  destruct (@created_shape _ E s wk Hin)
    as (r1 & r2 & rt & work & out & Hs & Hw & (s3 & Ho)).
  destruct (@expected_hooks (selectedLanguage (st_ui s)) wk r1 r2 work out
              rt (st_ui s) Hw) as (Hres & Herr).
  destruct (processFiles_hooks E s) as (_ & _ & Hfr & Hfe & _).
  rewrite Hs in Hfr, Hfe. rewrite Hres in Hfr. rewrite Herr in Hfe.
  unfold view. simpl. rewrite Hfr, Hfe.
  assert (Hout : exists body, out = "File: " ++ name f ++ body).
  { rewrite Ho, Hfs. simpl. apply report_starts_with_first_file. }
  destruct r1 as [[]|e1], r2 as [[]|e2]; try (left; split; reflexivity).
  right. destruct Hout as (body & Hb).
  split; [reflexivity|]. rewrite Hb. simpl.
  split; [reflexivity | now exists body].
Qed.

End Reports.

(** ** onDrop *)

Section Dropping.

Variable world : Type.
Variable E : Env world.

Lemma assign_previews_files fs :
  forall w, map fst (fst (assign_previews E fs w)) = fs.
Proof.
  induction fs as [|f fs IH]; intros w; simpl; [reflexivity|].
  destruct (ext_createObjectURL E f w) as [u w1].
  specialize (IH w1). destruct (assign_previews E fs w1) as [wp w2].
  simpl in *. now rewrite IH.
Qed.

Lemma assign_previews_urls fs :
  forall w,
    Forall (fun fu => exists w1 w2,
                ext_createObjectURL E (fst fu) w1 = (snd fu, w2))
           (fst (assign_previews E fs w)).
Proof.
  induction fs as [|f fs IH]; intros w; simpl; [constructor|].
  destruct (ext_createObjectURL E f w) as [u w1] eqn:Hu.
  specialize (IH w1). destruct (assign_previews E fs w1) as [wp w2].
  simpl in *. constructor; [|exact IH]. now exists w, w1.
Qed.


(** X11. onDrop makes the accepted files the queue, in the order given and in
    place of whatever was queued, and clears the error; [results],
    [progress], [isProcessing] and the language stay as they were.  Each
    file gets one preview, an object URL made for that file. *)
Theorem onDrop_replaces_queue acceptedFiles (s : St world) :
  let s' := fst (onDrop E acceptedFiles s) in
  let previews := snd (onDrop E acceptedFiles s) in
  files (st_ui s') = acceptedFiles
  /\ error (st_ui s') = None
  /\ results (st_ui s') = results (st_ui s)
  /\ progress (st_ui s') = progress (st_ui s)
  /\ isProcessing (st_ui s') = isProcessing (st_ui s)
  /\ selectedLanguage (st_ui s') = selectedLanguage (st_ui s)
  /\ map fst previews = acceptedFiles
  /\ Forall (fun fu => exists w1 w2,
                 ext_createObjectURL E (fst fu) w1 = (snd fu, w2))
            previews.
Proof.
  intros s' previews. subst s' previews. unfold onDrop.
  pose proof (assign_previews_files acceptedFiles (st_world s)) as Hf.
  pose proof (assign_previews_urls acceptedFiles (st_world s)) as Hu.
  destruct (assign_previews E acceptedFiles (st_world s)) as [wp w'].
  simpl in *. rewrite Hf. repeat split; assumption.
Qed.


End Dropping.

Section Language_failure.

Variable world : Type.
Variable E : Env world.

(** X13. When loadLanguage or initialize fails, no call is made for any file,
    no report is delivered ([results] is left empty by the reset, the only
    setResults call), and [error] is set, once, to the text "An error
    occurred during OCR processing. Please try again with different
    files.". *)
Theorem language_failure_aborts_run (s : St world) wk lang e :
  let o := processFiles E s in
  In (EvLoadLanguage wk lang (Err e)) (evs o)
  \/ In (EvInitialize wk lang (Err e)) (evs o) ->
  count is_file_work (evs o) = 0
  /\ count is_setResults (evs o) = 1
  /\ results (st_ui (st o)) = EmptyString
  /\ count is_error_message (evs o) = 1
  /\ error (st_ui (st o))
     = Some "An error occurred during OCR processing. Please try again with different files.".
Proof.
  intros o Hin. subst o.
  destruct (proj1 (engine_failure_aborts_run E s) wk lang e Hin)
    as (Hwork & Hset & Hmsg & Herr & Hres).
  repeat split; assumption.
Qed.

End Language_failure.

(** ** The further theorems on the concrete environment *)


Lemma processFiles_settles_witness :
  exists rt,
    In (EvTerminate 1 rt) (evs (processFiles Demo.env Demo.mixed))
    /\ res (processFiles Demo.env Demo.mixed) = rt
    /\ match rt with
       | Ok _ =>
           isProcessing (st_ui (st (processFiles Demo.env Demo.mixed)))
           = false
           /\ progress (st_ui (st (processFiles Demo.env Demo.mixed)))
              = JS.Int 0
       | Err _ =>
           isProcessing (st_ui (st (processFiles Demo.env Demo.mixed)))
           = true
       end.
Proof.
  apply (@processFiles_settles _ Demo.env Demo.mixed 1).
  vm_compute. find_in.
Defined.

Lemma calls_while_processing_witness :
  isProcessing
    (replay (firstn 7 (evs (processFiles Demo.env Demo.mixed)))
       (st_ui Demo.mixed))
  = true.
Proof.
  apply (@calls_while_processing _ Demo.env Demo.mixed
           (firstn 7 (evs (processFiles Demo.env Demo.mixed)))
           (EvRecognize 1 (ImgFile Demo.png) (Ok "text of good.png"))
           (skipn 8 (evs (processFiles Demo.env Demo.mixed)))).
  - vm_compute. reflexivity.
  - reflexivity.
Defined.

Lemma shown_progress_below_one_witness :
  shown_progress Demo.half = JS.Int 0.
Proof.
  apply (@shown_progress_below_one 5 [] 0). lia.
Defined.

Lemma shown_progress_tiny_witness :
  shown_progress (JS.NPos 5 [] (-6)) = JS.Int (Z.of_nat 5 * 100).
Proof.
  apply (@shown_progress_tiny 5 [] (-6)); lia.
Defined.

Lemma recognize_shows_last_message_witness :
  progress (st_ui (st (recognize Demo.env 1 (ImgFile Demo.png) Demo.mixed)))
  = last
      (map (fun m =>
              JS.times100 (JS.parseInt (JS.Number_toString (progress_of m))))
         (filter (fun m => status m =? "recognizing text")
            [mkLog "recognizing text" Demo.half;
             mkLog "recognizing text" Demo.one]))
      (progress (st_ui Demo.mixed)).
Proof.
  apply (@recognize_shows_last_message _ Demo.env 1 (ImgFile Demo.png)
           Demo.mixed
           [mkLog "recognizing text" Demo.half;
            mkLog "recognizing text" Demo.one]
           (Ok "text of good.png") Demo.w0).
  vm_compute. reflexivity.
Defined.

Lemma view_after_run_witness :
  (error_banner (view (st_ui (st (processFiles Demo.env Demo.mixed))))
   = Some "An error occurred during OCR processing. Please try again with different files."
   /\ results_panel (view (st_ui (st (processFiles Demo.env Demo.mixed))))
      = None)
  \/ (error_banner (view (st_ui (st (processFiles Demo.env Demo.mixed))))
      = None
      /\ results_panel (view (st_ui (st (processFiles Demo.env Demo.mixed))))
         = Some (results (st_ui (st (processFiles Demo.env Demo.mixed))))
      /\ exists body,
           results (st_ui (st (processFiles Demo.env Demo.mixed)))
           = "File: " ++ name Demo.png ++ body).
Proof.
  apply (@view_after_run _ Demo.env Demo.mixed 1 Demo.png
           [Demo.torn; Demo.doc]).
  - vm_compute. find_in.
  - vm_compute. reflexivity.
Defined.


Lemma language_failure_aborts_run_witness :
  count is_file_work (evs (processFiles Demo.env Demo.aborted)) = 0
  /\ count is_setResults (evs (processFiles Demo.env Demo.aborted)) = 1
  /\ results (st_ui (st (processFiles Demo.env Demo.aborted))) = EmptyString
  /\ count is_error_message (evs (processFiles Demo.env Demo.aborted)) = 1
  /\ error (st_ui (st (processFiles Demo.env Demo.aborted)))
     = Some "An error occurred during OCR processing. Please try again with different files.".
Proof.
  apply (@language_failure_aborts_run _ Demo.env Demo.aborted 1 "deu"
           "unknown language").
  left. vm_compute. find_in.
Defined.
